(** * Frame-level anomalies in videos: the training / evaluation loop

    A shallow embedding of [src/train.py]: the windowed aggregation of
    [test] (the Evaluator), [per_video_normalize] (the Scorer's per-video
    normalisation) and the iteration loop of [train] (the Trainer).

    Python exceptions are the [Raise] results of an error monad; local
    variables of a function are the fields of a record that is threaded
    through its loops; numpy arrays are lists indexed with stdpp's lookup
    and insert, with the [IndexError] of an out-of-range access written
    out. *)

From Stdlib Require Import ZArith QArith Qminmax Lia Lqa List.
From stdpp Require Import base list.
From Stdlib Require Ascii String.
Import ListNotations.

Local Open Scope nat_scope.

(** ** Exceptions and the error monad *)

Inductive exn : Type :=
  | IndexError
  | AssertionError
  | UnboundLocalError
  | ZeroDivisionError
  | ValueError.

Inductive res (A : Type) : Type :=
  | Ok (a : A)
  | Raise (e : exn).

Arguments Ok {A} a.
Arguments Raise {A} e.

#[global] Instance res_bind : MBind res := fun A B k m =>
  match m with
  | Ok a => k a
  | Raise e => Raise e
  end.

#[global] Instance res_ret : MRet res := fun A a => Ok a.

(** [l[i]] for a non-negative index: [IndexError] out of range. *)
Definition getitem {A : Type} (l : list A) (i : nat) : res A :=
  match l !! i with
  | Some a => Ok a
  | None => Raise IndexError
  end.

(** A local variable that is read: [UnboundLocalError] before its first
    assignment. *)
Definition bound {A : Type} (v : option A) : res A :=
  match v with
  | Some a => Ok a
  | None => Raise UnboundLocalError
  end.

(** A left fold in the error monad: the body of a [for] loop run over the
    items of a list, the first exception ending the loop. *)
Fixpoint for_each {S A : Type} (body : S -> A -> res S) (st : S) (l : list A)
  : res S :=
  match l with
  | [] => Ok st
  | a :: l' => st' ← body st a; for_each body st' l'
  end.

(** Two runs end alike: with the same exception, or with results that are
    related. *)
Definition agree {A : Type} (R : A -> A -> Prop) (x y : res A) : Prop :=
  match x, y with
  | Ok a, Ok b => R a b
  | Raise e, Raise e' => e = e'
  | _, _ => False
  end.

(** ** The Evaluator: [test], lines 52-87 *)

Module Evaluator.

Section Windowed.

(** [E] is the type of one scalar error [frame_error[i, j]]; [P] the type of
    one frame-shaped array of per-pixel values, with the elementwise
    operations the loop uses. *)
Variables E P : Type.
Variable pzero : P.
Variable padd : P -> P -> P.
Variable pdiv : P -> Z -> P.
(** [np.resize(anom_scores, (n,) + im.shape)] *)
Variable np_resize : list P -> list P.

(** One item [i] of a test batch, as the inner loop sees it: for each
    position [j] of the window, [frame_error[i, j]] and
    [np.square(reconstruction[i, :, :, j] - test_batch[i, :, :, j])].
    [frame_error[i].shape[0]] is the length of the list. *)
Definition item : Type := list (E * P).
Definition batch : Type := list item.

(** The local variables of [test] that the loop reads and writes.
    [fnames] holds [len(fnames)], the only thing the loop uses of the
    list besides [fnames[0]]; it is assigned at the start of every batch
    before it is read.  [anom_scores] and [inspection_count] are unbound
    until the first item.  [saved] lists the [np.save] calls of lines
    86-87: the sequence number in the file name and the array.  The
    running extrema [min_as] and [max_as] are only handed to the ROC
    functions of [src.evaluation] and are left out. *)
Record locals : Type := mkLocals {
  per_frame_error : list (list (list E));
  seq_idx : nat;
  f_idx : nat;
  fnames : nat;
  anom_scores : option (list P);
  inspection_count : option (list Z);
  saved : list (nat * list P)
}.

(** Lines 52-53: [dirs] is given by the number of frame files of each test
    directory. *)
Definition init (dirs : list nat) : locals :=
  {| per_frame_error := replicate (length dirs) [];
     seq_idx := 0;
     f_idx := 0;
     fnames := 0;
     anom_scores := None;
     inspection_count := None;
     saved := [] |}.

Section Pass.

Variable dirs : list nat.
(** [data._tvol] *)
Variable tvol : Z.
Variable last : bool.

(** Lines 63-67. *)
Definition allocate (st : locals) : res locals :=
  if Nat.eqb (f_idx st) 0 then
    _ ← getitem (per_frame_error st) (seq_idx st);
    _ ← (if Nat.eqb (fnames st) 0 then Raise IndexError else Ok tt);
    Ok {| per_frame_error :=
            <[seq_idx st := replicate (fnames st) []]> (per_frame_error st);
          seq_idx := seq_idx st;
          f_idx := f_idx st;
          fnames := fnames st;
          anom_scores := Some (replicate (fnames st) pzero);
          inspection_count := Some (replicate (fnames st) 0%Z);
          saved := saved st |}
  else Ok st.

(** Lines 69-72, for position [j] of the window: [x] is
    [frame_error[i, j]] with the squared residual of that position. *)
Definition record_position (st : locals) (j : nat) (x : E * P)
  : res locals :=
  let k := f_idx st + j in
  a ← (if last then
          a ← bound (anom_scores st);
          p ← getitem a k;
          Ok (Some (<[k := padd p x.2]> a))
        else Ok (anom_scores st));
  c ← bound (inspection_count st);
  n ← getitem c k;
  slots ← getitem (per_frame_error st) (seq_idx st);
  cell ← getitem slots k;
  Ok {| per_frame_error :=
          <[seq_idx st := <[k := cell ++ [x.1]]> slots]>
            (per_frame_error st);
        seq_idx := seq_idx st;
        f_idx := f_idx st;
        fnames := fnames st;
        anom_scores := a;
        inspection_count := Some (<[k := (n + 1)%Z]> c);
        saved := saved st |}.

(** Line 68: [for j in range(frame_error[i].shape[0])], from position
    [j] on. *)
Fixpoint record_window (st : locals) (j : nat) (it : item) : res locals :=
  match it with
  | [] => Ok st
  | x :: it' => st' ← record_position st j x; record_window st' (S j) it'
  end.

(** Lines 81-87. *)
Definition save_scores (st : locals) : res locals :=
  if last then
    a ← bound (anom_scores st);
    c ← bound (inspection_count st);
    let scores := np_resize (zip_with pdiv a c) in
    Ok {| per_frame_error := per_frame_error st;
          seq_idx := seq_idx st;
          f_idx := f_idx st;
          fnames := fnames st;
          anom_scores := Some scores;
          inspection_count := inspection_count st;
          saved := saved st ++ [(seq_idx st - 1, scores)] |}
  else Ok st.

(** Lines 73-87: the cursor. *)
Definition advance (st : locals) : res locals :=
  if (Z.of_nat (f_idx st) <? Z.of_nat (fnames st) - tvol)%Z then
    Ok {| per_frame_error := per_frame_error st;
          seq_idx := seq_idx st;
          f_idx := f_idx st + 1;
          fnames := fnames st;
          anom_scores := anom_scores st;
          inspection_count := inspection_count st;
          saved := saved st |}
  else
    let s := seq_idx st + 1 in
    fn ← (if length dirs <? s then getitem dirs s else Ok (fnames st));
    c ← bound (inspection_count st);
    if forallb (fun n => (0 <? n)%Z) c then
      save_scores {| per_frame_error := per_frame_error st;
                     seq_idx := s;
                     f_idx := 0;
                     fnames := fn;
                     anom_scores := anom_scores st;
                     inspection_count := inspection_count st;
                     saved := saved st |}
    else Raise AssertionError.

(** Lines 62-87: the body of [for i in range(test_batch.shape[0])]. *)
Definition process_item (st : locals) (it : item) : res locals :=
  st1 ← allocate st;
  st2 ← record_window st1 0 it;
  advance st2.

(** Lines 59-87: the body of the [while] loop for a batch that the data
    source returned. *)
Definition process_batch (st : locals) (b : batch) : res locals :=
  fn ← getitem dirs (seq_idx st);
  for_each process_item
    {| per_frame_error := per_frame_error st;
       seq_idx := seq_idx st;
       f_idx := f_idx st;
       fnames := fn;
       anom_scores := anom_scores st;
       inspection_count := inspection_count st;
       saved := saved st |} b.

(** Lines 55-87.  The data source is the answer of its [k]-th call of
    [get_test_batch] in this pass, [None] being the end marker; the
    loop is [while True], so the model takes fuel and returns [None]
    when it runs out.  The result carries the number of batches
    consumed. *)
Fixpoint test_loop (fuel : nat) (source : nat -> option batch) (k : nat)
  (st : locals) : option (res (locals * nat)) :=
  match fuel with
  | O => None
  | S fuel' =>
      match source k with
      | None => Some (Ok (st, k))
      | Some b =>
          match process_batch st b with
          | Raise e => Some (Raise e)
          | Ok st' => test_loop fuel' source (S k) st'
          end
      end
  end.

End Pass.

End Windowed.

Arguments mkLocals {E P}.
Arguments per_frame_error {E P} _.
Arguments seq_idx {E P} _.
Arguments f_idx {E P} _.
Arguments fnames {E P} _.
Arguments anom_scores {E P} _.
Arguments inspection_count {E P} _.
Arguments saved {E P} _.

(** What the statements about the inspection counts are written with: the
    sum of an array of counts, whether frame [k] lies in the window of [n]
    frames that starts at frame [f], and the number of the first [w]
    windows of [t] frames (starting at frames [0], [1], ...) that contain
    frame [k]. *)
Definition sum_counts (c : list Z) : Z := foldr Z.add 0%Z c.

Definition in_window (f n k : nat) : bool := (f <=? k) && (k <? f + n).

Definition coverage (t w k : nat) : Z :=
  Z.max 0 (Z.min (Z.of_nat k + 1) (Z.of_nat w)
           - Z.max 0 (Z.of_nat k + 1 - Z.of_nat t)).

(** The accumulators of the current sequence are allocated with [n]
    entries each. *)
Definition shaped {E P : Type} (n : nat) (st : locals E P) : Prop :=
  (exists slots, per_frame_error st !! seq_idx st = Some slots /\
                 length slots = n) /\
  (exists c, inspection_count st = Some c /\ length c = n) /\
  (exists a, anom_scores st = Some a /\ length a = n).

(** The inspection counts of the current sequence, of [l] frames, are
    those of its first [w] windows of [t] frames. *)
Definition counted {E P : Type} (l t w : nat) (st : locals E P) : Prop :=
  exists c, inspection_count st = Some c /\ length c = l /\
    (forall k, k < l -> c !! k = Some (coverage t w k)) /\
    sum_counts c = (Z.of_nat w * Z.of_nat t)%Z.

(** Each cell of the error accumulator of the current sequence holds as
    many errors as the inspection count of its frame says. *)
Definition aligned {E P : Type} (st : locals E P) : Prop :=
  exists slots c, per_frame_error st !! seq_idx st = Some slots /\
    inspection_count st = Some c /\
    c = (fun cell : list E => Z.of_nat (length cell)) <$> slots.

(** The cursor is inside a sequence of [l] frames whose accumulators hold
    the windows before [f_idx]. *)
Definition mid_sequence {E P : Type} (l t : nat) (st : locals E P) : Prop :=
  shaped l st /\ counted l t (f_idx st) st /\ aligned st.

(** Sequence [s], of [l] frames, has all its windows recorded: [l] cells,
    cell [k] holding one error for each window that contains frame [k]. *)
Definition complete {E P : Type} (l t : nat) (st : locals E P) (s : nat)
  : Prop :=
  exists slots, per_frame_error st !! s = Some slots /\ length slots = l /\
    forall k, k < l ->
      exists cell, slots !! k = Some cell /\
        Z.of_nat (length cell) = coverage t (l - t + 1) k.

(** Two passes over the same batches, one with [last] and one without, are
    at the same point: they differ at most in the anomaly scores and the
    saved files, and inside a sequence both have their anomaly scores
    allocated with one entry per inspection count. *)
Definition same_errors {E P : Type} (a b : locals E P) : Prop :=
  per_frame_error a = per_frame_error b /\ seq_idx a = seq_idx b /\
  f_idx a = f_idx b /\ fnames a = fnames b /\
  inspection_count a = inspection_count b /\
  (f_idx a <> 0 ->
   exists xa xb c, anom_scores a = Some xa /\ anom_scores b = Some xb /\
     inspection_count a = Some c /\
     length xa = length c /\ length xb = length c).

(** Sample data for concrete runs: frames of one pixel, a window whose
    errors and squared residuals are all 1, and a data source that hands out
    the batches of a list and then the end marker. *)
Definition unit_window (t : nat) : item Q Q := replicate t (1%Q, 1%Q).

Definition batches (n b t : nat) : list (batch Q Q) :=
  replicate n (replicate b (unit_window t)).

Definition source_of (bs : list (batch Q Q)) (k : nat) : option (batch Q Q) :=
  bs !! k.

Definition sample_item (dirs : list nat) (tvol : Z) (last : bool) :=
  process_item Q Q 0%Q Qplus (fun p n => p / inject_Z n)%Q (fun a => a)
    dirs tvol last.

Definition sample_batch (dirs : list nat) (tvol : Z) (last : bool) :=
  process_batch Q Q 0%Q Qplus (fun p n => p / inject_Z n)%Q (fun a => a)
    dirs tvol last.

Definition sample_loop (dirs : list nat) (tvol : Z) (last : bool) :=
  test_loop Q Q 0%Q Qplus (fun p n => p / inject_Z n)%Q (fun a => a)
    dirs tvol last.

(** The locals when the first batch of a pass starts on a test set whose
    first sequence has [l] frames. *)
Definition first_batch (dirs : list nat) (l : nat) : locals Q Q :=
  {| per_frame_error := replicate (length dirs) [];
     seq_idx := 0; f_idx := 0; fnames := l;
     anom_scores := None; inspection_count := None; saved := [] |}.

End Evaluator.

(** ** The Scorer's normalisation: [per_video_normalize], lines 120-124 *)

Module Scorer.

(** The value of a float64 division.  Frame errors are modelled as
    rationals; numpy's array division does not raise on a zero divisor
    (it warns and yields [nan] or a signed infinity), so the result type
    has these values. *)
Inductive npfloat : Type :=
  | Finite (q : Q)
  | NaN
  | PosInf
  | NegInf.

(** [np.min] and [np.max] of a one-dimensional array: [ValueError] on an
    empty one. *)
Definition np_min (v : list Q) : res Q :=
  match v with
  | [] => Raise ValueError
  | x :: v' => Ok (foldl Qmin x v')
  end.

Definition np_max (v : list Q) : res Q :=
  match v with
  | [] => Raise ValueError
  | x :: v' => Ok (foldl Qmax x v')
  end.

(** [x / d] on float64 values. *)
Definition true_divide (x d : Q) : npfloat :=
  if Qeq_bool d 0 then
    if Qeq_bool x 0 then NaN
    else if Qle_bool 0 x then PosInf else NegInf
  else Finite (x / d).

(** The right-hand side of line 123 for one sequence. *)
Definition normalize (v : list Q) : res (list npfloat) :=
  mn ← np_min v;
  mx ← np_max v;
  mn' ← np_min v;
  Ok (map (fun x => true_divide (x - mn) (mx - mn')) v).

(** Lines 121-124. *)
Definition per_video_normalize (pfe : list (list Q))
  : res (list (option (list npfloat))) :=
  for_each
    (fun err i => v ← getitem pfe i; r ← normalize v; Ok (<[i := Some r]> err))
    (replicate (length pfe) None)
    (seq 0 (length pfe)).

End Scorer.

(** ** The labels and the validation loss: [test], lines 102-112 *)

Module Labels.

Import Scorer.

(** Line 105 for one sequence: the label of each of its [n] frames, 1 when
    the frame index is listed in the ground truth [gt] of the sequence. *)
Definition frame_labels (gt : list Z) (n : nat) : list Z :=
  map (fun j => if existsb (Z.eqb (Z.of_nat j)) gt then 1%Z else 0%Z)
    (seq 0 n).

(** Lines 102-105: [abnorm_scores] is used through the lengths of its
    arrays only. *)
Definition make_labels {A : Type} (frame_gt : list (list Z))
  (abnorm_scores : list (list A)) : res (list Z) :=
  for_each
    (fun labels i =>
       sc ← getitem abnorm_scores i;
       gt ← getitem frame_gt i;
       Ok (labels ++ frame_labels gt (length sc)))
    [] (seq 0 (length frame_gt)).

(** [np.mean] of a one-dimensional array: [nan], with a warning, when it is
    empty. *)
Definition np_mean (v : list Q) : npfloat :=
  match v with
  | [] => NaN
  | _ => Finite (foldr Qplus 0%Q v / inject_Z (Z.of_nat (length v)))
  end.

(** [per_frame_average_error[labels == 0]] for arrays of the same length. *)
Definition normal_errors (pfae : list Q) (labels : list Z) : list Q :=
  (filter (fun p : Q * Z => p.2 = 0%Z) (zip pfae labels)).*1.

(** Line 112.  A boolean mask of another length than the array is an
    [IndexError]; line 108 has accepted the two arrays before, which have
    the same length whenever this line is reached. *)
Definition valid_loss (pfae : list Q) (labels : list Z) : res npfloat :=
  if length pfae =? length labels
  then Ok (np_mean (normal_errors pfae labels))
  else Raise IndexError.

End Labels.

(** ** The name of the data set: [test], lines 46-47 *)

Module Paths.

Import Stdlib.Strings.Ascii Stdlib.Strings.String.

(** [s.split('/')] *)
Fixpoint split_slash (s : string) : list string :=
  match s with
  | EmptyString => [EmptyString]
  | String c s' =>
      if Ascii.eqb c "/"
      then EmptyString :: split_slash s'
      else match split_slash s' with
           | w :: ws => String c w :: ws
           | [] => [String c EmptyString]
           end
  end.

(** [s.endswith('/')] *)
Fixpoint ends_with_slash (s : string) : bool :=
  match s with
  | EmptyString => false
  | String c EmptyString => Ascii.eqb c "/"
  | String _ s' => ends_with_slash s'
  end.

(** [os.path.join(a, b)] of [posixpath]. *)
Definition path_join (a b : string) : string :=
  if prefix "/" b then b
  else if String.eqb a "" || ends_with_slash a then (a ++ b)%string
  else (a ++ "/" ++ b)%string.

(** [s.lower()] on a byte string. *)
Definition lower_ascii (c : ascii) : ascii :=
  let n := nat_of_ascii c in
  if (65 <=? n) && (n <=? 90) then ascii_of_nat (n + 32) else c.

Fixpoint lower (s : string) : string :=
  match s with
  | EmptyString => EmptyString
  | String c s' => String (lower_ascii c) (lower s')
  end.

(** [l[-2]] *)
Definition penultimate {A : Type} (l : list A) : res A :=
  match rev l with
  | _ :: x :: _ => Ok x
  | _ => Raise IndexError
  end.

(** Lines 46-47. *)
Definition dataset_name (data_dir : string) : res string :=
  x ← penultimate (split_slash (path_join data_dir "Test"));
  Ok (lower x).

(** The string holds no ['/']. *)
Fixpoint slash_free (s : string) : bool :=
  match s with
  | EmptyString => true
  | String c s' => negb (Ascii.eqb c "/") && slash_free s'
  end.

End Paths.

(** ** The Trainer: [train], lines 15-42 *)

Module Trainer.

(** What [test] returns. *)
Record metrics : Type := mkMetrics {
  frame_auc : Q;
  frame_eer : Q;
  valid_loss : Q
}.

(** The calls of the model adapter and of [test] that a run makes, in
    order, each with the iteration it is made in. *)
Inductive call : Type :=
  | Batch_train (i : Z)
  | Test (i : Z)
  | Save_model (i : Z).

(** The local variables of [train], lines 17-18, and the calls made so
    far. *)
Record history : Type := mkHistory {
  frame_aucs : list Q;
  frame_eers : list Q;
  pixel_aucs : list Q;
  pixel_eers : list Q;
  losses : list Q;
  valid_losses : list Q;
  best_auc : Q;
  calls : list call
}.

Definition start : history :=
  {| frame_aucs := []; frame_eers := []; pixel_aucs := []; pixel_eers := [];
     losses := []; valid_losses := []; best_auc := 0; calls := [] |}.

(** What lines 34-38 write: the two arrays saved and the arguments of the
    three plots. *)
Record artifacts : Type := mkArtifacts {
  frame_aucs_npy : list Q;
  pixel_aucs_npy : list Q;
  plot_loss : list Q * list Q;
  plot_auc_frame : list Q;
  plot_auc_pixel : list Q
}.

(** [x < y] on floats. *)
Definition Qltb (x y : Q) : bool := negb (Qle_bool y x).

(** [i % print_every] on Python integers. *)
Definition py_mod (a b : Z) : res Z :=
  if (b =? 0)%Z then Raise ZeroDivisionError else Ok (a mod b)%Z.

(** [range(n)] *)
Definition range (n : Z) : list Z := map Z.of_nat (seq 0 (Z.to_nat n)).

Section Run.

(** The collaborators: the loss [model.batch_train] returns at iteration
    [i], what the evaluation pass run at iteration [i] returns or
    raises, and the same for the final pass with [last=True]. *)
Variable batch_train : Z -> Q.
Variable test : Z -> res metrics.
Variable test_last : res metrics.

Variable print_every : Z.

(** Lines 29-33. *)
Definition record_eval (h : history) (i : Z) (m : metrics) : history :=
  let save := Qltb (best_auc h) (frame_auc m) in
  {| frame_aucs := frame_aucs h ++ [frame_auc m];
     frame_eers := frame_eers h ++ [frame_eer m];
     pixel_aucs := pixel_aucs h;
     pixel_eers := pixel_eers h;
     losses := losses h;
     valid_losses := valid_losses h ++ [valid_loss m];
     best_auc := if save then frame_auc m else best_auc h;
     calls := calls h ++ (if save then [Save_model i] else []) |}.

(** Lines 20-33: the body of the loop. *)
Definition iteration (h : history) (i : Z) : res history :=
  let h1 :=
    {| frame_aucs := frame_aucs h;
       frame_eers := frame_eers h;
       pixel_aucs := pixel_aucs h;
       pixel_eers := pixel_eers h;
       losses := losses h ++ [batch_train i];
       valid_losses := valid_losses h;
       best_auc := best_auc h;
       calls := calls h ++ [Batch_train i] |} in
  r ← py_mod i print_every;
  if (r =? 0)%Z then
    m ← test i;
    Ok (record_eval
          {| frame_aucs := frame_aucs h1;
             frame_eers := frame_eers h1;
             pixel_aucs := pixel_aucs h1;
             pixel_eers := pixel_eers h1;
             losses := losses h1;
             valid_losses := valid_losses h1;
             best_auc := best_auc h1;
             calls := calls h1 ++ [Test i] |} i m)
  else Ok h1.

(** Lines 19-33. *)
Definition train_loop (num_iteration : Z) : res history :=
  for_each iteration start (range (num_iteration + 1)).

(** Lines 34-38. *)
Definition persist (h : history) : artifacts :=
  {| frame_aucs_npy := frame_aucs h;
     pixel_aucs_npy := pixel_aucs h;
     plot_loss := (losses h, valid_losses h);
     plot_auc_frame := frame_aucs h;
     plot_auc_pixel := pixel_aucs h |}.

(** Lines 15-42: the artifacts written and the pair returned. *)
Definition train (num_iteration : Z) : res (artifacts * (Q * Q)) :=
  h ← train_loop num_iteration;
  let out := persist h in
  m ← test_last;
  Ok (out, (frame_auc m, frame_eer m)).

End Run.

(** The iterations at which a run saved the model, and those at which it
    evaluated it. *)
Definition saves (h : history) : list Z :=
  omap (fun c => match c with Save_model i => Some i | _ => None end)
    (calls h).

Definition evaluations (h : history) : list Z :=
  omap (fun c => match c with Test i => Some i | _ => None end) (calls h).

Definition training_steps (h : history) : list Z :=
  omap (fun c => match c with Batch_train i => Some i | _ => None end)
    (calls h).

(** The evaluation run at iteration [i] returned the frame AUC [a]. *)
Definition auc_at (test : Z -> res metrics) (i : Z) (a : Q) : Prop :=
  exists m, test i = Ok m /\ frame_auc m = a.

(** The history lists hold what the collaborators returned: one frame AUC,
    one EER and one validation loss per evaluation, in order, and one loss
    per training step. *)
Definition recorded (batch_train : Z -> Q) (test : Z -> res metrics)
  (h : history) : Prop :=
  Forall2 (auc_at test) (evaluations h) (frame_aucs h) /\
  Forall2 (fun i a => exists m, test i = Ok m /\ frame_eer m = a)
    (evaluations h) (frame_eers h) /\
  Forall2 (fun i a => exists m, test i = Ok m /\ valid_loss m = a)
    (evaluations h) (valid_losses h) /\
  losses h = map batch_train (training_steps h).

(** [best_auc] is above the frame AUC of every evaluation made; it is still
    the initial 0 when the model was never saved; and otherwise the last
    save was made at an evaluation that returned [best_auc], all the
    evaluations before it having returned less. *)
Definition best_checkpoint (test : Z -> res metrics) (h : history) : Prop :=
  (forall i a, In i (evaluations h) -> auc_at test i a ->
               (a <= best_auc h)%Q) /\
  (saves h = [] -> best_auc h = 0%Q) /\
  (forall i, last (saves h) = Some i ->
     exists pre post, evaluations h = pre ++ i :: post /\
       auc_at test i (best_auc h) /\
       forall i' a, In i' pre -> auc_at test i' a -> (a < best_auc h)%Q).

End Trainer.

(** * Properties *)

Lemma for_each_app {S A : Type} (body : S -> A -> res S) (st : S) (l1 l2 : list A) :
  for_each body st (l1 ++ l2) = (st' ← for_each body st l1; for_each body st' l2).
Proof.
  revert st. induction l1 as [|a l1 IH]; intros st; simpl; [reflexivity|].
  destruct (body st a) as [st1|e]; simpl; [apply IH | reflexivity].
Qed.

Lemma for_each_cons {S A : Type} (body : S -> A -> res S) (st : S) (a : A)
  (l : list A) :
  for_each body st (a :: l) = (st' ← body st a; for_each body st' l).
Proof. reflexivity. Qed.

Lemma getitem_Some {A : Type} (l : list A) (i : nat) (a : A) :
  l !! i = Some a -> getitem l i = Ok a.
Proof. intros H. unfold getitem. rewrite H. reflexivity. Qed.

Lemma getitem_Ok {A : Type} (l : list A) (i : nat) (a : A) :
  getitem l i = Ok a -> l !! i = Some a.
Proof. unfold getitem. destruct (l !! i); [intros [= ->]; reflexivity | discriminate]. Qed.

Lemma agree_bind {A B : Type} (R : A -> A -> Prop) (R' : B -> B -> Prop)
  (x y : res A) (f g : A -> res B) :
  agree R x y -> (forall a b, R a b -> agree R' (f a) (g b)) ->
  agree R' (x ≫= f) (y ≫= g).
Proof.
  destruct x as [a|e], y as [b|e']; simpl; intros H Hfg; try contradiction.
  - apply Hfg. exact H.
  - exact H.
Qed.

Lemma for_each_agree {S A : Type} (R : S -> S -> Prop)
  (f g : S -> A -> res S) :
  (forall a b x, R a b -> agree R (f a x) (g b x)) ->
  forall l a b, R a b -> agree R (for_each f a l) (for_each g b l).
Proof.
  intros Hfg l. induction l as [|x l IH]; intros a b HR; simpl.
  - exact HR.
  - apply (agree_bind R R); [apply Hfg; exact HR | exact IH].
Qed.

(** ** The Trainer *)

Module TrainerFacts.

Import Trainer.

Lemma Qltb_lt (x y : Q) : Qltb x y = true <-> (x < y)%Q.
Proof.
  unfold Qltb. rewrite negb_true_iff, <- not_true_iff_false, Qle_bool_iff.
  split; [apply Qnot_le_lt | apply Qlt_not_le].
Qed.

Lemma range_succ (n : Z) :
  (0 <= n)%Z -> range (n + 1) = range n ++ [n].
Proof.
  intros Hn. unfold range.
  replace (Z.to_nat (n + 1)) with (S (Z.to_nat n)) by lia.
  rewrite seq_S, map_app. simpl. rewrite Z2Nat.id by lia. reflexivity.
Qed.

Lemma range_bounds (n i : Z) : In i (range n) <-> (0 <= i < n)%Z.
Proof.
  unfold range. rewrite in_map_iff. split.
  - intros (k & <- & Hk). apply in_seq in Hk. lia.
  - intros Hi. exists (Z.to_nat i). split; [lia|]. apply in_seq. lia.
Qed.

Section Run.

Variable batch_train : Z -> Q.
Variable test : Z -> res metrics.
Variable print_every : Z.

Local Abbreviation iteration := (iteration batch_train test print_every).
Local Abbreviation train_loop := (train_loop batch_train test print_every).

(** An iteration that is not a multiple of [print_every] only trains. *)
Lemma iteration_train_only (h : history) (i : Z) :
  print_every <> 0%Z -> (i mod print_every)%Z <> 0%Z ->
  exists h', iteration h i = Ok h' /\
    calls h' = calls h ++ [Batch_train i] /\
    losses h' = losses h ++ [batch_train i] /\
    pixel_aucs h' = pixel_aucs h /\
    best_auc h' = best_auc h.
Proof.
  intros Hpe Hi. unfold iteration, py_mod.
  destruct (Z.eqb_spec print_every 0) as [|_]; [contradiction|]. simpl.
  destruct (Z.eqb_spec (i mod print_every) 0) as [|_]; [contradiction|].
  eexists. split; [reflexivity|]. simpl. auto.
Qed.

(** An iteration that is a multiple of [print_every] trains, evaluates
    and records the evaluation. *)
Lemma iteration_evaluates (h : history) (i : Z) (m : metrics) :
  print_every <> 0%Z -> (i mod print_every)%Z = 0%Z -> test i = Ok m ->
  exists h', iteration h i = Ok h' /\
    calls h' = calls h ++ [Batch_train i; Test i] ++
               (if Qltb (best_auc h) (frame_auc m) then [Save_model i] else []) /\
    losses h' = losses h ++ [batch_train i] /\
    pixel_aucs h' = pixel_aucs h /\
    best_auc h' =
      if Qltb (best_auc h) (frame_auc m) then frame_auc m else best_auc h.
Proof.
  intros Hpe Hi Ht. unfold iteration, py_mod.
  destruct (Z.eqb_spec print_every 0) as [|_]; [contradiction|]. simpl.
  rewrite Hi, Ht. simpl.
  eexists. split; [reflexivity|]. simpl.
  rewrite <- !app_assoc. simpl. auto.
Qed.

(** What any successful iteration leaves alone or keeps ordered. *)
Lemma iteration_frame (h h' : history) (i : Z) :
  iteration h i = Ok h' ->
  pixel_aucs h' = pixel_aucs h /\ (best_auc h <= best_auc h')%Q.
Proof.
  unfold iteration, py_mod.
  destruct (print_every =? 0)%Z; [discriminate|]. simpl.
  destruct (i mod print_every =? 0)%Z.
  - destruct (test i) as [m|e]; [|discriminate]. simpl.
    intros [= <-]. simpl. split; [reflexivity|].
    destruct (Qltb (best_auc h) (frame_auc m)) eqn:Hs.
    + apply Qlt_le_weak, Qltb_lt, Hs.
    + apply Qle_refl.
  - intros [= <-]. simpl. split; [reflexivity | apply Qle_refl].
Qed.

Lemma loop_frame (l : list Z) (h h' : history) :
  for_each iteration h l = Ok h' ->
  pixel_aucs h' = pixel_aucs h /\ (best_auc h <= best_auc h')%Q.
Proof.
  revert h. induction l as [|i l IH]; intros h; simpl.
  - intros [= <-]. split; [reflexivity | apply Qle_refl].
  - destruct (iteration h i) as [h1|e] eqn:Hi; [|discriminate]. simpl.
    intros Hl. apply iteration_frame in Hi as [Hp Hb].
    apply IH in Hl as [Hp' Hb']. split; [congruence|].
    eapply Qle_trans; eassumption.
Qed.

(** The loop over any list of iterations, all of whose evaluations
    return: it trains once per iteration and evaluates at the multiples of
    [print_every]. *)
Lemma loop_calls (l : list Z) (h : history) :
  print_every <> 0%Z ->
  (forall i, In i l -> (i mod print_every)%Z = 0%Z -> exists m, test i = Ok m) ->
  exists h', for_each iteration h l = Ok h' /\
    training_steps h' = training_steps h ++ l /\
    evaluations h' =
      evaluations h ++ filter (fun i => (i mod print_every)%Z = 0%Z) l /\
    length (losses h') = length (losses h) + length l.
Proof.
  intros Hpe. revert h. induction l as [|i l IH]; intros h Ht.
  - exists h. simpl. rewrite !app_nil_r. auto.
  - assert (Hl : forall i0, In i0 l -> (i0 mod print_every)%Z = 0%Z ->
              exists m, test i0 = Ok m) by (intros; apply Ht; simpl; auto).
    destruct (Z.eq_dec (i mod print_every)%Z 0%Z) as [Hi|Hi].
    + destruct (Ht i (or_introl eq_refl) Hi) as [m Hm].
      destruct (iteration_evaluates h i m Hpe Hi Hm)
        as (h1 & E1 & Hc & Hlo & _ & _).
      destruct (IH h1 Hl) as (h' & E' & Hs & He & Hn).
      exists h'. simpl. rewrite E1. simpl. split; [exact E'|].
      rewrite Hs, He, Hn. unfold training_steps, evaluations.
      rewrite Hc, Hlo, !omap_app, length_app, filter_cons_True by exact Hi.
      simpl. rewrite <- !app_assoc. simpl.
      destruct (Qltb (best_auc h) (frame_auc m)); simpl;
        repeat split; try reflexivity; lia.
    + destruct (iteration_train_only h i Hpe Hi) as (h1 & E1 & Hc & Hlo & _ & _).
      destruct (IH h1 Hl) as (h' & E' & Hs & He & Hn).
      exists h'. simpl. rewrite E1. simpl. split; [exact E'|].
      rewrite Hs, He, Hn. unfold training_steps, evaluations.
      rewrite Hc, Hlo, !omap_app, length_app, filter_cons_False by exact Hi.
      simpl. rewrite <- ?app_assoc, ?app_nil_r. simpl.
      repeat split; try reflexivity; lia.
Qed.

(** An evaluation pass that raises ends the run with its exception. *)
Lemma iteration_raises (h : history) (i : Z) (e : exn) :
  print_every <> 0%Z -> (i mod print_every)%Z = 0%Z -> test i = Raise e ->
  iteration h i = Raise e.
Proof.
  intros Hpe Hi Ht. unfold iteration, py_mod.
  destruct (Z.eqb_spec print_every 0) as [|_]; [contradiction|]. simpl.
  rewrite Hi, Ht. reflexivity.
Qed.

Lemma train_loop_raises (num_iteration : Z) (e : exn) :
  (0 <= num_iteration)%Z -> print_every <> 0%Z -> test 0%Z = Raise e ->
  train_loop num_iteration = Raise e.
Proof.
  intros Hn Hpe Ht. unfold train_loop, range.
  replace (Z.to_nat (num_iteration + 1)) with (S (Z.to_nat num_iteration)) by lia.
  cbn [seq map for_each]. change (Z.of_nat 0) with 0%Z.
  rewrite (iteration_raises start 0%Z e Hpe); [reflexivity | | exact Ht].
  apply Z.mod_0_l. exact Hpe.
Qed.

(** C8: for [num_iteration >= 0] and [print_every > 0], when every
    evaluation pass returns, the loop of [train] returns after exactly
    [num_iteration + 1] training steps, the steps [0 .. num_iteration] in
    order, and it runs an evaluation pass exactly at the steps that are
    multiples of [print_every], step 0 among them. *)
Theorem train_steps_and_evaluations (num_iteration : Z) :
  (0 <= num_iteration)%Z -> (0 < print_every)%Z ->
  (forall i, (0 <= i <= num_iteration)%Z -> (i mod print_every)%Z = 0%Z ->
             exists m, test i = Ok m) ->
  exists h, train_loop num_iteration = Ok h /\
    training_steps h = range (num_iteration + 1) /\
    Z.of_nat (length (training_steps h)) = (num_iteration + 1)%Z /\
    Z.of_nat (length (losses h)) = (num_iteration + 1)%Z /\
    evaluations h =
      filter (fun i => (i mod print_every)%Z = 0%Z) (range (num_iteration + 1)) /\
    (forall i, In i (evaluations h) <->
               (0 <= i <= num_iteration)%Z /\ (i mod print_every)%Z = 0%Z) /\
    In 0%Z (evaluations h).
Proof.
  intros Hn Hpe Ht.
  destruct (loop_calls (range (num_iteration + 1)) start) as (h & E & Hs & He & Hl).
  { lia. }
  { intros i Hi. apply range_bounds in Hi. apply Ht. lia. }
  simpl in Hs, He, Hl.
  assert (Hin : forall i, In i (evaluations h) <->
              (0 <= i <= num_iteration)%Z /\ (i mod print_every)%Z = 0%Z).
  { intros i. rewrite He, <- list_elem_of_In, list_elem_of_filter,
      list_elem_of_In, range_bounds. split; intros []; split; auto; lia. }
  exists h. split; [exact E|]. split; [exact Hs|].
  split; [rewrite Hs; unfold range; rewrite length_map, length_seq; lia|].
  split; [rewrite Hl; unfold range; rewrite length_map, length_seq; lia|].
  split; [exact He|]. split; [exact Hin|].
  apply Hin. split; [lia|]. apply Z.mod_0_l. lia.
Qed.

(** *** What the history holds *)

(** X16: with [print_every = 0] and at least one iteration, the run ends with a
    [ZeroDivisionError] at [i % print_every] of the first iteration, before
    any evaluation, whatever the collaborators return. *)
Theorem print_every_zero_raises (test_last : res metrics) (num_iteration : Z) :
  print_every = 0%Z -> (0 <= num_iteration)%Z ->
  train_loop num_iteration = Raise ZeroDivisionError /\
  train batch_train test test_last print_every num_iteration
    = Raise ZeroDivisionError.
Proof.
  intros Hpe Hn.
  assert (H : train_loop num_iteration = Raise ZeroDivisionError).
  { unfold Trainer.train_loop, range.
    replace (Z.to_nat (num_iteration + 1)) with (S (Z.to_nat num_iteration))
      by lia.
    cbn [seq map for_each]. unfold Trainer.iteration, py_mod. rewrite Hpe.
    reflexivity. }
  split; [exact H|]. unfold train. rewrite H. reflexivity.
Qed.

(** What an iteration that returns has done. *)
Lemma iteration_inv (h h' : history) (i : Z) :
  iteration h i = Ok h' ->
  print_every <> 0%Z /\
  losses h' = losses h ++ [batch_train i] /\
  training_steps h' = training_steps h ++ [i] /\
  (((i mod print_every)%Z <> 0%Z /\
    evaluations h' = evaluations h /\ saves h' = saves h /\
    frame_aucs h' = frame_aucs h /\ frame_eers h' = frame_eers h /\
    valid_losses h' = valid_losses h /\ best_auc h' = best_auc h) \/
   ((i mod print_every)%Z = 0%Z /\
    exists m, test i = Ok m /\
      evaluations h' = evaluations h ++ [i] /\
      frame_aucs h' = frame_aucs h ++ [frame_auc m] /\
      frame_eers h' = frame_eers h ++ [frame_eer m] /\
      valid_losses h' = valid_losses h ++ [valid_loss m] /\
      ((Qltb (best_auc h) (frame_auc m) = true /\
        saves h' = saves h ++ [i] /\ best_auc h' = frame_auc m) \/
       (Qltb (best_auc h) (frame_auc m) = false /\
        saves h' = saves h /\ best_auc h' = best_auc h)))).
Proof.
  unfold Trainer.iteration, py_mod. intros H.
  destruct (Z.eqb_spec print_every 0) as [|Hpe]; [discriminate|]. simpl in H.
  split; [exact Hpe|].
  destruct (Z.eqb_spec (i mod print_every) 0) as [Hi|Hi].
  - destruct (test i) as [m|e] eqn:Hm; [|discriminate]. simpl in H.
    injection H as <-. unfold training_steps, evaluations, saves. simpl.
    rewrite !omap_app. simpl.
    destruct (Qltb (best_auc h) (frame_auc m)) eqn:Hs; simpl;
      rewrite ?app_nil_r;
      (split; [reflexivity|]); (split; [reflexivity|]); right;
      (split; [exact Hi|]); exists m; (split; [reflexivity|]);
      do 4 (split; [reflexivity|]); [left | right]; auto.
  - injection H as <-. unfold training_steps, evaluations, saves. simpl.
    rewrite !omap_app. simpl. rewrite !app_nil_r.
    split; [reflexivity|]. split; [reflexivity|].
    left. repeat split; auto.
Qed.

Lemma loop_recorded (l : list Z) (h h' : history) :
  for_each iteration h l = Ok h' ->
  recorded batch_train test h -> recorded batch_train test h'.
Proof.
  revert h. induction l as [|i l IH]; intros h H Hr; simpl in H.
  - injection H as <-. exact Hr.
  - destruct (iteration h i) as [h1|] eqn:H1; [|discriminate]. simpl in H.
    apply (IH _ H). clear IH H.
    destruct Hr as (Ha & He & Hv & Hl).
    apply iteration_inv in H1 as (_ & Hl1 & Ht1 & [Hno|Hev]);
      unfold recorded.
    + destruct Hno as (_ & -> & _ & -> & -> & -> & _).
      do 3 (split; [assumption|]). rewrite Hl1, Ht1, Hl, map_app. reflexivity.
    + destruct Hev as (_ & m & Hm & -> & -> & -> & -> & _).
      split; [|split; [|split]].
      * apply Forall2_app; [exact Ha|]. repeat constructor. exists m. auto.
      * apply Forall2_app; [exact He|]. repeat constructor. exists m. auto.
      * apply Forall2_app; [exact Hv|]. repeat constructor. exists m. auto.
      * rewrite Hl1, Ht1, Hl, map_app. reflexivity.
Qed.

(** X17: the lists written at the end of a run hold what the collaborators
    returned: [frame_aucs], [frame_eers] and [valid_losses] have one entry
    per evaluation made, the value the evaluation of that iteration
    returned, in the order of the evaluations, and [losses] has the loss of
    every training step. *)
Theorem history_is_what_was_returned (num_iteration : Z) (h : history) :
  train_loop num_iteration = Ok h ->
  recorded batch_train test h /\
  frame_aucs_npy (persist h) = frame_aucs h /\
  length (frame_aucs h) = length (evaluations h) /\
  length (frame_eers h) = length (evaluations h) /\
  length (valid_losses h) = length (evaluations h) /\
  length (losses h) = length (training_steps h).
Proof.
  intros H. assert (Hr : recorded batch_train test h).
  { apply (loop_recorded _ _ _ H). repeat split; constructor. }
  split; [exact Hr|]. split; [reflexivity|].
  destruct Hr as (Ha & He & Hv & Hl).
  apply Forall2_length in Ha, He, Hv.
  rewrite Hl, length_map. auto.
Qed.

Lemma loop_evaluations (l : list Z) (h h' : history) :
  for_each iteration h l = Ok h' ->
  training_steps h' = training_steps h ++ l /\
  evaluations h' =
    evaluations h ++ filter (fun i => (i mod print_every)%Z = 0%Z) l.
Proof.
  revert h. induction l as [|i l IH]; intros h H; simpl in H.
  - injection H as <-. rewrite !app_nil_r. auto.
  - destruct (iteration h i) as [h1|] eqn:H1; [|discriminate]. simpl in H.
    apply IH in H as [-> ->].
    apply iteration_inv in H1 as (_ & _ & -> & [Hno|Hev]).
    + destruct Hno as (Hi & -> & _).
      rewrite filter_cons_False by exact Hi.
      rewrite <- app_assoc. auto.
    + destruct Hev as (Hi & m & _ & -> & _).
      rewrite filter_cons_True by exact Hi.
      rewrite <- !app_assoc. auto.
Qed.

Lemma multiples_below (k : nat) :
  (0 < print_every)%Z ->
  Z.of_nat
    (length (filter (fun i => (i mod print_every)%Z = 0%Z)
               (range (Z.of_nat k))))
  = ((Z.of_nat k + print_every - 1) / print_every)%Z.
Proof.
  intros Hpe. induction k as [|k IH].
  - simpl. symmetry. apply Z.div_small. lia.
  - rewrite Nat2Z.inj_succ, <- Z.add_1_r, range_succ by lia.
    rewrite filter_app, length_app, Nat2Z.inj_add, IH.
    pose proof (Z.div_mod (Z.of_nat k) print_every ltac:(lia)) as Hdm.
    pose proof (Z.mod_pos_bound (Z.of_nat k) print_every Hpe) as Hb.
    set (q := (Z.of_nat k / print_every)%Z) in *.
    set (r := (Z.of_nat k mod print_every)%Z) in *.
    assert (H1 : ((Z.of_nat k + 1 + print_every - 1) / print_every = q + 1)%Z).
    { symmetry. apply (Z.div_unique_pos _ _ _ r); lia. }
    rewrite H1.
    destruct (Z.eq_dec r 0%Z) as [Hr|Hr].
    + rewrite filter_cons_True by exact Hr. simpl.
      assert (H0 : ((Z.of_nat k + print_every - 1) / print_every = q)%Z).
      { symmetry. apply (Z.div_unique_pos _ _ _ (print_every - 1)); lia. }
      lia.
    + rewrite filter_cons_False by exact Hr. simpl.
      assert (H0 : ((Z.of_nat k + print_every - 1) / print_every = q + 1)%Z).
      { symmetry. apply (Z.div_unique_pos _ _ _ (r - 1)); lia. }
      lia.
Qed.

(** X18: for [num_iteration >= 0] and [print_every > 0], a run that gets through
    its loop has made [num_iteration / print_every + 1] evaluations, and
    the array saved as [frame_aucs.npy] has that many entries. *)
Theorem number_of_evaluations (num_iteration : Z) (h : history) :
  (0 <= num_iteration)%Z -> (0 < print_every)%Z ->
  train_loop num_iteration = Ok h ->
  Z.of_nat (length (evaluations h)) = (num_iteration / print_every + 1)%Z /\
  Z.of_nat (length (frame_aucs_npy (persist h)))
    = (num_iteration / print_every + 1)%Z.
Proof.
  intros Hn Hpe H.
  assert (Hr : recorded batch_train test h).
  { apply (loop_recorded _ _ _ H). repeat split; constructor. }
  destruct Hr as (Ha & _). apply Forall2_length in Ha.
  apply loop_evaluations in H as [_ He]. simpl in He.
  assert (Hc : Z.of_nat (length (evaluations h))
               = (num_iteration / print_every + 1)%Z).
  { rewrite He. replace (num_iteration + 1)%Z
      with (Z.of_nat (Z.to_nat (num_iteration + 1))) by lia.
    rewrite multiples_below by exact Hpe.
    rewrite Z2Nat.id by lia.
    replace (num_iteration + 1 + print_every - 1)%Z
      with (num_iteration + 1 * print_every)%Z by lia.
    rewrite Z.div_add by lia. reflexivity. }
  split; [exact Hc|]. simpl. rewrite <- Ha. exact Hc.
Qed.

Lemma Qltb_ge (x y : Q) : Qltb x y = false -> (y <= x)%Q.
Proof.
  unfold Qltb. rewrite negb_false_iff. apply Qle_bool_iff.
Qed.

Lemma loop_best (l : list Z) (h h' : history) :
  for_each iteration h l = Ok h' ->
  best_checkpoint test h -> best_checkpoint test h'.
Proof.
  revert h. induction l as [|i l IH]; intros h H Hb; simpl in H.
  - injection H as <-. exact Hb.
  - destruct (iteration h i) as [h1|] eqn:H1; [|discriminate]. simpl in H.
    apply (IH _ H). clear IH H.
    destruct Hb as (Hle & Hnone & Hlast).
    apply iteration_inv in H1 as (_ & _ & _ & [Hno|Hev]); unfold best_checkpoint.
    + destruct Hno as (_ & -> & -> & _ & _ & _ & ->). auto.
    + destruct Hev as (_ & m & Hm & -> & _ & _ & _ & [Hsave|Hkeep]).
      * destruct Hsave as (Hlt & -> & ->). apply Qltb_lt in Hlt.
        split; [|split].
        -- intros i' a Hin (m' & Hm' & <-). apply in_app_or in Hin as [Hin|Hin].
           ++ apply Qlt_le_weak. eapply Qle_lt_trans; [|exact Hlt].
              apply (Hle i' _ Hin). exists m'. auto.
           ++ destruct Hin as [<-|[]]. rewrite Hm in Hm'. injection Hm' as <-.
              apply Qle_refl.
        -- intros Habs. destruct (saves h); discriminate.
        -- intros i0 Hi0. rewrite last_snoc in Hi0. injection Hi0 as <-.
           exists (evaluations h), []. split; [reflexivity|].
           split; [exists m; auto|].
           intros i' a Hin Ha. eapply Qle_lt_trans; [|exact Hlt].
           apply (Hle i' a Hin Ha).
      * destruct Hkeep as (Hge & -> & ->). apply Qltb_ge in Hge.
        split; [|split].
        -- intros i' a Hin (m' & Hm' & <-). apply in_app_or in Hin as [Hin|Hin].
           ++ apply (Hle i' _ Hin). exists m'. auto.
           ++ destruct Hin as [<-|[]]. rewrite Hm in Hm'. injection Hm' as <-.
              exact Hge.
        -- exact Hnone.
        -- intros i0 Hi0. destruct (Hlast i0 Hi0) as (pre & post & -> & Ha & Hpre).
           exists pre, (post ++ [i]). rewrite <- app_assoc. simpl. auto.
Qed.

(** X19: the checkpoint that line 40 restores: when the loop ends, [best_auc] is
    above the frame AUC of every evaluation made; if the model was never
    saved it is still 0 (no evaluation returned more than 0); otherwise
    the last save was made at an evaluation that returned exactly
    [best_auc], and every evaluation before that one returned strictly
    less: the checkpoint is that of the first evaluation that reaches the
    maximum. *)
Theorem checkpoint_is_first_maximum (num_iteration : Z) (h : history) :
  train_loop num_iteration = Ok h -> best_checkpoint test h.
Proof.
  intros H. apply (loop_best _ _ _ H).
  split; [|split]; simpl.
  - intros i a [].
  - reflexivity.
  - intros i Hi. discriminate.
Qed.

Lemma range_split (a n : Z) :
  (0 <= a <= n)%Z -> exists rest, range (n + 1) = range a ++ a :: rest.
Proof.
  intros Ha. unfold range.
  replace (Z.to_nat (n + 1)) with (Z.to_nat a + S (Z.to_nat (n - a))) by lia.
  rewrite seq_app, map_app. simpl. rewrite Z2Nat.id by lia. eauto.
Qed.

(** X20: the first evaluation pass that raises ends the run with its exception:
    nothing is written by lines 34-38, no checkpoint is restored and no
    final pass is made. *)
Theorem first_failed_evaluation_aborts (test_last : res metrics)
  (num_iteration i0 : Z) (e : exn) :
  print_every <> 0%Z -> (0 <= i0 <= num_iteration)%Z ->
  (i0 mod print_every)%Z = 0%Z -> test i0 = Raise e ->
  (forall i, (0 <= i < i0)%Z -> (i mod print_every)%Z = 0%Z ->
             exists m, test i = Ok m) ->
  train_loop num_iteration = Raise e /\
  train batch_train test test_last print_every num_iteration = Raise e.
Proof.
  intros Hpe Hi0 Hmod Hraise Hbefore.
  assert (H : train_loop num_iteration = Raise e).
  { destruct (range_split i0 num_iteration Hi0) as [rest Hr].
    unfold Trainer.train_loop. rewrite Hr, for_each_app.
    destruct (loop_calls (range i0) start Hpe) as (h1 & E1 & _).
    { intros i Hi. apply range_bounds in Hi. apply Hbefore. exact Hi. }
    rewrite E1. simpl.
    rewrite (iteration_raises h1 i0 e Hpe Hmod Hraise). reflexivity. }
  split; [exact H|]. unfold train. rewrite H. reflexivity.
Qed.

End Run.

(** C7: a checkpoint is saved after an evaluation exactly when the new
    frame AUC is strictly above [best_auc], which then takes that value and
    is otherwise left alone; [best_auc] never decreases over any stretch of
    a run; and with the evaluations returning the AUCs 0.5, 0.7, 0.6 and 0.9
    the model is saved at the first, second and fourth evaluation only. *)
Theorem checkpoint_on_strict_improvement :
  (forall h i m,
     ((best_auc h < frame_auc m)%Q ->
        saves (record_eval h i m) = saves h ++ [i] /\
        best_auc (record_eval h i m) = frame_auc m) /\
     (~ (best_auc h < frame_auc m)%Q ->
        saves (record_eval h i m) = saves h /\
        best_auc (record_eval h i m) = best_auc h)) /\
  (forall batch_train test print_every l h h',
     for_each (iteration batch_train test print_every) h l = Ok h' ->
     (best_auc h <= best_auc h')%Q) /\
  (forall batch_train,
     exists h,
       train_loop batch_train
         (fun i => Ok (mkMetrics (nth (Z.to_nat i) [0.5; 0.7; 0.6; 0.9] 0)%Q 0%Q 0%Q))
         1%Z 3%Z = Ok h /\
       evaluations h = [0; 1; 2; 3]%Z /\
       frame_aucs h = [0.5; 0.7; 0.6; 0.9]%Q /\
       saves h = [0; 1; 3]%Z).
Proof.
  split; [|split].
  - intros h i m. unfold record_eval, saves. simpl. rewrite omap_app.
    destruct (Qltb (best_auc h) (frame_auc m)) eqn:Hs; simpl.
    + split; [auto|]. intros Hn. exfalso. apply Hn, Qltb_lt, Hs.
    + split.
      * intros Hlt. apply Qltb_lt in Hlt. congruence.
      * intros _. rewrite app_nil_r. auto.
  - intros bt test pe l h h' Hl. eapply loop_frame. exact Hl.
  - intros bt. eexists. split; [vm_compute; reflexivity|].
    vm_compute. auto.
Qed.

(** A run whose evaluations return the AUCs 0.3 and then 0.2: [best_auc]
    goes from 0 to 0.3 and stays there. *)
Lemma checkpoint_on_strict_improvement_witness :
  exists h',
    for_each
      (iteration (fun _ => 0%Q)
         (fun i => Ok (mkMetrics (nth (Z.to_nat i) [0.3; 0.2] 0)%Q 0%Q 0%Q)) 1%Z)
      start [0; 1]%Z = Ok h' /\
    saves h' = [0%Z] /\
    (best_auc start <= best_auc h')%Q.
Proof.
  eexists. split; [vm_compute; reflexivity|]. split; [reflexivity|].
  apply (proj1 (proj2 checkpoint_on_strict_improvement)
           (fun _ => 0%Q)
           (fun i => Ok (mkMetrics (nth (Z.to_nat i) [0.3; 0.2] 0)%Q 0%Q 0%Q))
           1%Z [0; 1]%Z start).
  vm_compute. reflexivity.
Defined.

(** Three iterations, an evaluation every second one. *)
Lemma train_steps_and_evaluations_witness :
  exists h,
    train_loop (fun _ => 1%Q) (fun _ => Ok (mkMetrics 0.5 0.5 1)%Q) 2%Z 2%Z = Ok h /\
    training_steps h = [0; 1; 2]%Z /\
    evaluations h = [0; 2]%Z.
Proof.
  destruct (train_steps_and_evaluations
              (fun _ => 1%Q) (fun _ => Ok (mkMetrics 0.5 0.5 1)%Q) 2%Z 2%Z)
    as (h & E & Hs & _ & _ & He & _).
  - lia.
  - lia.
  - intros i _ _. eexists. reflexivity.
  - exists h. split; [exact E|]. split; [exact Hs | exact He].
Defined.

(** C10: nothing in the loop of [train] appends to [pixel_aucs]: whatever
    the number of iterations and the results of the evaluations, it is
    empty when the loop ends, so the array saved as [pixel_aucs.npy] and the
    sequence given to the pixel-level AUC plot are empty. *)
Theorem pixel_aucs_always_empty batch_train test print_every num_iteration h :
  train_loop batch_train test print_every num_iteration = Ok h ->
  pixel_aucs h = [] /\
  pixel_aucs_npy (persist h) = [] /\
  plot_auc_pixel (persist h) = [].
Proof.
  intros Hl. apply loop_frame in Hl as [Hp _]. simpl in Hp. auto.
Qed.

Lemma pixel_aucs_always_empty_witness :
  exists h,
    train_loop (fun _ => 1%Q) (fun _ => Ok (mkMetrics 0.5 0.5 1)%Q) 2%Z 2%Z = Ok h /\
    pixel_aucs_npy (persist h) = [].
Proof.
  eexists. split; [vm_compute; reflexivity|].
  apply (pixel_aucs_always_empty
           (fun _ => 1%Q) (fun _ => Ok (mkMetrics 0.5 0.5 1)%Q) 2%Z 2%Z).
  vm_compute. reflexivity.
Defined.

(** Runs of a few iterations, the evaluation of iteration [i] returning the
    [i]-th of a list of frame AUCs. *)
Lemma print_every_zero_raises_witness :
  train_loop (fun _ => 1%Q) (fun _ => Ok (mkMetrics 0.5 0.5 1)%Q) 0%Z 5%Z
    = Raise ZeroDivisionError /\
  train (fun _ => 1%Q) (fun _ => Ok (mkMetrics 0.5 0.5 1)%Q)
    (Ok (mkMetrics 0.5 0.5 1)%Q) 0%Z 5%Z = Raise ZeroDivisionError.
Proof.
  apply (print_every_zero_raises (fun _ => 1%Q)
           (fun _ => Ok (mkMetrics 0.5 0.5 1)%Q) 0%Z
           (Ok (mkMetrics 0.5 0.5 1)%Q) 5%Z).
  - reflexivity.
  - lia.
Defined.

Lemma history_is_what_was_returned_witness :
  exists h,
    train_loop (fun i => inject_Z i)
      (fun i => Ok (mkMetrics (nth (Z.to_nat i) [0.5; 0.7; 0.6; 0.9] 0)%Q 0%Q 1%Q))
      2%Z 3%Z = Ok h /\
    frame_aucs h = [0.5; 0.6]%Q /\
    length (frame_aucs h) = length (evaluations h).
Proof.
  eexists. split; [vm_compute; reflexivity|]. split; [reflexivity|].
  apply (history_is_what_was_returned (fun i => inject_Z i)
           (fun i => Ok (mkMetrics (nth (Z.to_nat i) [0.5; 0.7; 0.6; 0.9] 0)%Q 0%Q 1%Q))
           2%Z 3%Z).
  vm_compute. reflexivity.
Defined.

Lemma number_of_evaluations_witness :
  exists h,
    train_loop (fun _ => 1%Q) (fun _ => Ok (mkMetrics 0.5 0.5 1)%Q) 2%Z 5%Z
      = Ok h /\
    Z.of_nat (length (evaluations h)) = 3%Z.
Proof.
  eexists. split; [vm_compute; reflexivity|].
  apply (number_of_evaluations (fun _ => 1%Q)
           (fun _ => Ok (mkMetrics 0.5 0.5 1)%Q) 2%Z 5%Z); try lia.
  vm_compute. reflexivity.
Defined.

Lemma checkpoint_is_first_maximum_witness :
  exists h,
    train_loop (fun _ => 1%Q)
      (fun i => Ok (mkMetrics (nth (Z.to_nat i) [0.5; 0.7; 0.6; 0.7] 0)%Q 0%Q 1%Q))
      1%Z 3%Z = Ok h /\
    saves h = [0; 1]%Z /\
    best_checkpoint
      (fun i => Ok (mkMetrics (nth (Z.to_nat i) [0.5; 0.7; 0.6; 0.7] 0)%Q 0%Q 1%Q))
      h.
Proof.
  eexists. split; [vm_compute; reflexivity|]. split; [reflexivity|].
  apply (checkpoint_is_first_maximum (fun _ => 1%Q)
           (fun i => Ok (mkMetrics (nth (Z.to_nat i) [0.5; 0.7; 0.6; 0.7] 0)%Q 0%Q 1%Q))
           1%Z 3%Z).
  vm_compute. reflexivity.
Defined.

Lemma first_failed_evaluation_aborts_witness :
  train_loop (fun _ => 1%Q)
    (fun i => if (i =? 2)%Z then Raise AssertionError
              else Ok (mkMetrics 0.5 0.5 1)%Q) 1%Z 3%Z
    = Raise AssertionError /\
  train (fun _ => 1%Q)
    (fun i => if (i =? 2)%Z then Raise AssertionError
              else Ok (mkMetrics 0.5 0.5 1)%Q)
    (Ok (mkMetrics 0.5 0.5 1)%Q) 1%Z 3%Z = Raise AssertionError.
Proof.
  apply (first_failed_evaluation_aborts (fun _ => 1%Q)
           (fun i => if (i =? 2)%Z then Raise AssertionError
                     else Ok (mkMetrics 0.5 0.5 1)%Q) 1%Z
           (Ok (mkMetrics 0.5 0.5 1)%Q) 3%Z 2%Z AssertionError).
  - lia.
  - lia.
  - reflexivity.
  - reflexivity.
  - intros i Hi _. destruct (Z.eqb_spec i 2); [lia|]. eexists. reflexivity.
Defined.

End TrainerFacts.

(** ** The Scorer's normalisation *)

Module ScorerFacts.

Import Scorer.

Lemma Qmin_cases (x y : Q) : Qmin x y = x \/ Qmin x y = y.
Proof. unfold Qmin, GenericMinMax.gmin. destruct (x ?= y)%Q; auto. Qed.

Lemma Qmax_cases (x y : Q) : Qmax x y = x \/ Qmax x y = y.
Proof. unfold Qmax, GenericMinMax.gmax. destruct (x ?= y)%Q; auto. Qed.

Lemma foldl_Qmin (v : list Q) (x : Q) :
  In (foldl Qmin x v) (x :: v) /\
  (forall y, In y (x :: v) -> (foldl Qmin x v <= y)%Q).
Proof.
  revert x. induction v as [|z v IH]; intros x; simpl.
  - split; [auto|]. intros y [<-|[]]. apply Qle_refl.
  - destruct (IH (Qmin x z)) as [Hin Hle]. split.
    + destruct Hin as [Hin|Hin]; [|auto].
      rewrite <- Hin. destruct (Qmin_cases x z) as [->| ->]; auto.
    + intros y [<-|[<-|Hy]].
      * eapply Qle_trans; [apply Hle; left; reflexivity | apply Q.le_min_l].
      * eapply Qle_trans; [apply Hle; left; reflexivity | apply Q.le_min_r].
      * apply Hle. right. exact Hy.
Qed.

Lemma foldl_Qmax (v : list Q) (x : Q) :
  In (foldl Qmax x v) (x :: v) /\
  (forall y, In y (x :: v) -> (y <= foldl Qmax x v)%Q).
Proof.
  revert x. induction v as [|z v IH]; intros x; simpl.
  - split; [auto|]. intros y [<-|[]]. apply Qle_refl.
  - destruct (IH (Qmax x z)) as [Hin Hle]. split.
    + destruct Hin as [Hin|Hin]; [|auto].
      rewrite <- Hin. destruct (Qmax_cases x z) as [->| ->]; auto.
    + intros y [<-|[<-|Hy]].
      * eapply Qle_trans; [apply Q.le_max_l | apply Hle; left; reflexivity].
      * eapply Qle_trans; [apply Q.le_max_r | apply Hle; left; reflexivity].
      * apply Hle. right. exact Hy.
Qed.

(** On a non-empty array [np.min] returns an entry that is below all
    entries, and [np.max] one that is above all. *)
Lemma np_min_spec (v : list Q) :
  v <> [] ->
  exists m, np_min v = Ok m /\ In m v /\ forall y, In y v -> (m <= y)%Q.
Proof.
  destruct v as [|x v]; [congruence|]. intros _.
  exists (foldl Qmin x v). split; [reflexivity | apply foldl_Qmin].
Qed.

Lemma np_max_spec (v : list Q) :
  v <> [] ->
  exists m, np_max v = Ok m /\ In m v /\ forall y, In y v -> (y <= m)%Q.
Proof.
  destruct v as [|x v]; [congruence|]. intros _.
  exists (foldl Qmax x v). split; [reflexivity | apply foldl_Qmax].
Qed.

Lemma normalize_nonempty (v : list Q) :
  v <> [] ->
  exists mn mx, np_min v = Ok mn /\ np_max v = Ok mx /\
    normalize v = Ok (map (fun x => true_divide (x - mn) (mx - mn)) v).
Proof.
  intros Hv.
  destruct (np_min_spec v Hv) as (mn & Emn & _).
  destruct (np_max_spec v Hv) as (mx & Emx & _).
  exists mn, mx. unfold normalize. rewrite Emn, Emx. simpl. auto.
Qed.

(** The loop of [per_video_normalize] from sequence [a] on. *)
Lemma normalize_loop (pfe : list (list Q)) (n a : nat)
  (err : list (option (list npfloat))) :
  a + n = length pfe -> length err = length pfe ->
  Forall (fun v => v <> []) pfe ->
  exists err',
    for_each
      (fun err i => v ← getitem pfe i; r ← normalize v; Ok (<[i := Some r]> err))
      err (seq a n) = Ok err' /\
    length err' = length pfe /\
    (forall i v r, a <= i -> pfe !! i = Some v -> normalize v = Ok r ->
                   err' !! i = Some (Some r)) /\
    (forall i, i < a -> err' !! i = err !! i).
Proof.
  intros Han Hlen Hne. revert a err Han Hlen.
  induction n as [|n IH]; intros a err Han Hlen.
  - exists err. simpl. split; [reflexivity|]. split; [exact Hlen|]. split; [|auto].
    intros i v r Hi Hv. apply lookup_lt_Some in Hv. lia.
  - destruct (lookup_lt_is_Some_2 pfe a) as [v Hv]; [lia|].
    assert (Hvn : v <> []).
    { exact (Forall_lookup_1 _ _ _ _ Hne Hv). }
    destruct (normalize_nonempty v Hvn) as (mn & mx & _ & _ & Er).
    destruct (IH (S a) (<[a := Some (map (fun x => true_divide (x - mn) (mx - mn)) v)]> err))
      as (err' & E' & Hl' & Hset & Hkeep); [lia | rewrite length_insert; exact Hlen |].
    exists err'. simpl. rewrite (getitem_Some _ _ _ Hv). simpl. rewrite Er. simpl.
    split; [exact E'|]. split; [exact Hl'|]. split.
    + intros i w r Hi Hw Hr. destruct (decide (i = a)) as [->|Hia].
      * rewrite Hkeep by lia. rewrite list_lookup_insert_eq by lia.
        congruence.
      * apply (Hset i w r); [lia | exact Hw | exact Hr].
    + intros i Hi. rewrite Hkeep by lia. apply list_lookup_insert_ne. lia.
Qed.

(** When no sequence is empty, [per_video_normalize] returns, and entry
    [i] of its result is computed from sequence [i] alone. *)
Lemma per_video_normalize_rows (pfe : list (list Q)) :
  Forall (fun v => v <> []) pfe ->
  exists err, per_video_normalize pfe = Ok err /\
    length err = length pfe /\
    forall i v r, pfe !! i = Some v -> normalize v = Ok r ->
                  err !! i = Some (Some r).
Proof.
  intros Hne.
  destruct (normalize_loop pfe (length pfe) 0 (replicate (length pfe) None))
    as (err & E & Hl & Hset & _); [lia | apply length_replicate | exact Hne |].
  exists err. split; [exact E|]. split; [exact Hl|].
  intros i v r. apply (Hset i v r). lia.
Qed.


Lemma true_divide_nan (x d : Q) :
  (d == 0)%Q -> (x == 0)%Q -> true_divide x d = NaN.
Proof.
  intros Hd Hx. unfold true_divide.
  apply Qeq_bool_iff in Hd, Hx. rewrite Hd, Hx. reflexivity.
Qed.



(** C6, as the code has it: [per_video_normalize] has no guard for a
    constant sequence, and the division of the zero vector by zero does not
    raise: the function returns, and the entry of that sequence is a vector
    of NaN of the same length. *)
Theorem per_video_normalize_constant
  (pfe : list (list Q)) (i : nat) (v : list Q) (c : Q) :
  Forall (fun v => v <> []) pfe ->
  pfe !! i = Some v -> (forall x, In x v -> (x == c)%Q) ->
  exists err,
    per_video_normalize pfe = Ok err /\
    err !! i = Some (Some (replicate (length v) NaN)).
Proof.
  intros Hne Hv Hc.
  assert (Hvn : v <> []) by exact (Forall_lookup_1 _ _ _ _ Hne Hv).
  destruct (normalize_nonempty v Hvn) as (mn & mx & Emn & Emx & En).
  destruct (np_min_spec v Hvn) as (mn' & Emn' & Hmn_in & _).
  destruct (np_max_spec v Hvn) as (mx' & Emx' & Hmx_in & _).
  assert (mn' = mn) as -> by congruence.
  assert (mx' = mx) as -> by congruence.
  destruct (per_video_normalize_rows pfe Hne) as (err & E & _ & Hrow).
  exists err. split; [exact E|].
  rewrite (Hrow i v _ Hv En). do 2 f_equal.
  pose proof (Hc mn Hmn_in) as Hmn. pose proof (Hc mx Hmx_in) as Hmx.
  clear - Hc Hmn Hmx. induction v as [|x v IH]; [reflexivity|]. simpl.
  rewrite true_divide_nan.
  - f_equal. apply IH. intros y Hy. apply Hc. right. exact Hy.
  - lra.
  - specialize (Hc x (or_introl eq_refl)). lra.
Qed.

Lemma per_video_normalize_constant_witness :
  exists err,
    per_video_normalize [[1; 1; 1]; [0; 1; 2; 3; 4]]%Q = Ok err /\
    err !! 0%nat = Some (Some [NaN; NaN; NaN]).
Proof.
  apply (per_video_normalize_constant
           [[1; 1; 1]; [0; 1; 2; 3; 4]]%Q 0%nat [1; 1; 1]%Q 1%Q).
  - repeat constructor; discriminate.
  - reflexivity.
  - simpl. intros x [<-|[<-|[<-|[]]]]; reflexivity.
Defined.

(** The claim of C6 fails on a sequence of three equal errors: no exception
    is raised, the caller gets three NaN. *)
Lemma constant_sequence_not_flagged :
  per_video_normalize [[1; 1; 1]%Q] = Ok [Some [NaN; NaN; NaN]] /\
  ~ (exists e, per_video_normalize [[1; 1; 1]%Q] = Raise e).
Proof.
  split; [reflexivity|]. intros [e He]. vm_compute in He. discriminate.
Qed.

(** *** More on the normalisation *)

Lemma normalize_loop_raises (pfe : list (list Q)) (n a : nat)
  (err : list (option (list npfloat))) :
  a + n = length pfe -> (exists i, a <= i /\ pfe !! i = Some []) ->
  for_each
    (fun err i => v ← getitem pfe i; r ← normalize v; Ok (<[i := Some r]> err))
    err (seq a n) = Raise ValueError.
Proof.
  revert a err. induction n as [|n IH]; intros a err Han (i & Hi & Hv).
  - apply lookup_lt_Some in Hv. lia.
  - destruct (lookup_lt_is_Some_2 pfe a) as [v Ha]; [lia|].
    simpl. rewrite (getitem_Some _ _ _ Ha). simpl.
    destruct v as [|x v].
    + reflexivity.
    + destruct (normalize_nonempty (x :: v)) as (mn & mx & _ & _ & ->);
        [discriminate|].
      simpl. apply IH; [lia|]. exists i. split; [|exact Hv].
      destruct (Nat.eq_dec a i) as [->|]; [congruence | lia].
Qed.

Lemma empty_or_not (pfe : list (list Q)) :
  Forall (fun v => v <> []) pfe \/ exists i, pfe !! i = Some [].
Proof.
  induction pfe as [|v pfe [IH|(i & Hi)]].
  - left. constructor.
  - destruct v as [|x v].
    + right. exists 0. reflexivity.
    + left. constructor; [discriminate | exact IH].
  - right. exists (S i). exact Hi.
Qed.

(** X8: [per_video_normalize] returns exactly when no sequence is empty, with
    one entry per sequence, every one assigned; the only exception it
    raises is the [ValueError] of [np.min] on an empty array. *)
Theorem per_video_normalize_returns_iff (pfe : list (list Q)) :
  ((exists err, per_video_normalize pfe = Ok err) <->
   Forall (fun v => v <> []) pfe) /\
  (forall e, per_video_normalize pfe = Raise e -> e = ValueError) /\
  (forall err, per_video_normalize pfe = Ok err ->
     length err = length pfe /\ Forall (fun r => r <> None) err).
Proof.
  destruct (empty_or_not pfe) as [Hne|Hem].
  - destruct (per_video_normalize_rows pfe Hne) as (err & E & Hl & Hrow).
    split; [|split].
    + split; [auto | eauto].
    + intros e He. congruence.
    + intros err' He. rewrite E in He. injection He as <-.
      split; [exact Hl|]. apply Forall_lookup. intros i r Hr.
      destruct (lookup_lt_is_Some_2 pfe i) as [v Hv].
      { rewrite <- Hl. eapply lookup_lt_Some, Hr. }
      destruct (normalize_nonempty v (Forall_lookup_1 _ _ _ _ Hne Hv))
        as (mn & mx & _ & _ & Hn).
      rewrite (Hrow i v _ Hv Hn) in Hr. injection Hr as <-. discriminate.
  - assert (E : per_video_normalize pfe = Raise ValueError).
    { apply normalize_loop_raises; [lia|].
      destruct Hem as (i & Hi). exists i. split; [lia | exact Hi]. }
    split; [|split].
    + split.
      * intros (err & He). congruence.
      * intros Hne. destruct Hem as (i & Hi).
        exfalso. exact (Forall_lookup_1 _ _ _ _ Hne Hi eq_refl).
    + intros e He. congruence.
    + intros err He. congruence.
Qed.











End ScorerFacts.

(** ** The Evaluator *)

Module EvaluatorFacts.

Import Evaluator.

Lemma sum_counts_insert (c : list Z) (k : nat) (n : Z) :
  c !! k = Some n ->
  sum_counts (<[k := (n + 1)%Z]> c) = (sum_counts c + 1)%Z.
Proof.
  revert k. induction c as [|x c IH]; intros [|k] H; simpl in *; try discriminate.
  - injection H as ->. lia.
  - rewrite (IH k H). lia.
Qed.

Lemma sum_counts_replicate (n : nat) : sum_counts (replicate n 0%Z) = 0%Z.
Proof. induction n as [|n IH]; simpl; [reflexivity | exact IH]. Qed.

Lemma in_window_spec (f n k : nat) :
  in_window f n k = true <-> f <= k < f + n.
Proof.
  unfold in_window. rewrite andb_true_iff, Nat.leb_le, Nat.ltb_lt. reflexivity.
Qed.

(** The window that starts at frame [w] adds one to the coverage of its own
    frames and nothing elsewhere. *)
Lemma coverage_succ (t w k : nat) :
  coverage t (S w) k =
  if in_window w t k then (coverage t w k + 1)%Z else coverage t w k.
Proof.
  unfold coverage. destruct (in_window w t k) eqn:Hw.
  - apply in_window_spec in Hw. lia.
  - assert (~ (w <= k < w + t)) by (rewrite <- in_window_spec; congruence). lia.
Qed.

Lemma coverage_0 (t k : nat) : coverage t 0 k = 0%Z.
Proof. unfold coverage. lia. Qed.

(** Once all [l - t + 1] windows of a sequence of [l] frames are counted,
    every frame is covered at least once and at most [t] times. *)
Lemma coverage_full (t l k : nat) :
  1 <= t <= l -> k < l ->
  (1 <= coverage t (l - t + 1) k <= Z.of_nat t)%Z.
Proof. intros Ht Hk. unfold coverage. lia. Qed.

Section Pass.

Variables E P : Type.
Variable pzero : P.
Variable padd : P -> P -> P.
Variable pdiv : P -> Z -> P.
Variable np_resize : list P -> list P.
Variable dirs : list nat.
Variable tvol : Z.
Variable last : bool.

Local Abbreviation locals := (locals E P).
Local Abbreviation item := (item E P).
Local Abbreviation batch := (batch E P).
Local Abbreviation allocate := (allocate E P pzero).
Local Abbreviation record_position := (record_position E P padd last).
Local Abbreviation record_window := (record_window E P padd last).
Local Abbreviation save_scores := (save_scores E P pdiv np_resize last).
Local Abbreviation advance := (advance E P pdiv np_resize dirs tvol last).
Local Abbreviation process_item :=
  (process_item E P pzero padd pdiv np_resize dirs tvol last).
Local Abbreviation process_batch :=
  (process_batch E P pzero padd pdiv np_resize dirs tvol last).
Local Abbreviation test_loop :=
  (test_loop E P pzero padd pdiv np_resize dirs tvol last).

(** *** Allocation, lines 63-67 *)

Lemma allocate_skip (st : locals) :
  f_idx st <> 0 -> allocate st = Ok st.
Proof.
  intros Hf. unfold Evaluator.allocate.
  destruct (Nat.eqb_spec (f_idx st) 0); [contradiction | reflexivity].
Qed.

Lemma allocate_fresh (st st1 : locals) :
  f_idx st = 0 -> allocate st = Ok st1 ->
  seq_idx st1 = seq_idx st /\ f_idx st1 = 0 /\ fnames st1 = fnames st /\
  saved st1 = saved st /\
  0 < fnames st /\ seq_idx st < length (per_frame_error st) /\
  per_frame_error st1 =
    <[seq_idx st := replicate (fnames st) []]> (per_frame_error st) /\
  anom_scores st1 = Some (replicate (fnames st) pzero) /\
  inspection_count st1 = Some (replicate (fnames st) 0%Z).
Proof.
  intros Hf. unfold Evaluator.allocate. rewrite Hf. simpl.
  destruct (getitem (per_frame_error st) (seq_idx st)) as [s|] eqn:Hs;
    [|discriminate].
  apply getitem_Ok, lookup_lt_Some in Hs. simpl.
  destruct (Nat.eqb_spec (fnames st) 0) as [|Hn]; [discriminate|]. simpl.
  intros [= <-]. simpl. repeat split; auto. lia.
Qed.

Lemma allocate_returns (st : locals) :
  f_idx st = 0 -> 0 < fnames st -> seq_idx st < length (per_frame_error st) ->
  exists st1, allocate st = Ok st1.
Proof.
  intros Hf Hn Hs. unfold Evaluator.allocate. rewrite Hf. simpl.
  destruct (lookup_lt_is_Some_2 _ _ Hs) as [s Hl].
  rewrite (getitem_Some _ _ _ Hl). simpl.
  destruct (Nat.eqb_spec (fnames st) 0); [lia|]. simpl. eauto.
Qed.

(** *** One position of a window, lines 69-72 *)

Lemma record_position_inv (st st' : locals) (j : nat) (x : E * P) :
  record_position st j x = Ok st' ->
  seq_idx st' = seq_idx st /\ f_idx st' = f_idx st /\
  fnames st' = fnames st /\ saved st' = saved st /\
  (exists c n, inspection_count st = Some c /\ c !! (f_idx st + j) = Some n /\
     inspection_count st' = Some (<[f_idx st + j := (n + 1)%Z]> c)) /\
  (exists slots cell, per_frame_error st !! seq_idx st = Some slots /\
     slots !! (f_idx st + j) = Some cell /\
     per_frame_error st' =
       <[seq_idx st := <[f_idx st + j := cell ++ [x.1]]> slots]>
         (per_frame_error st)) /\
  (if last
   then exists a p, anom_scores st = Some a /\ a !! (f_idx st + j) = Some p /\
          anom_scores st' = Some (<[f_idx st + j := padd p x.2]> a)
   else anom_scores st' = anom_scores st).
Proof.
  unfold Evaluator.record_position. intros H.
  destruct (if last then _ else _) as [a'|] eqn:Ha; [|discriminate].
  simpl in H.
  destruct (inspection_count st) as [c|]; [|discriminate]. simpl in H.
  destruct (getitem c (f_idx st + j)) as [n|] eqn:Hn; [|discriminate].
  simpl in H.
  destruct (getitem (per_frame_error st) (seq_idx st)) as [slots|] eqn:Hs;
    [|discriminate].
  simpl in H.
  destruct (getitem slots (f_idx st + j)) as [cell|] eqn:Hc; [|discriminate].
  simpl in H. injection H as <-. simpl.
  apply getitem_Ok in Hn, Hs, Hc.
  repeat (split; [reflexivity|]).
  split; [eauto|]. split; [eauto|].
  destruct last.
  - destruct (anom_scores st) as [a|]; [|discriminate]. simpl in Ha.
    destruct (getitem a (f_idx st + j)) as [p|] eqn:Hp; [|discriminate].
    simpl in Ha. injection Ha as <-. apply getitem_Ok in Hp. eauto.
  - injection Ha as <-. reflexivity.
Qed.

Lemma record_position_returns (st : locals) (j n : nat) (x : E * P) :
  shaped n st -> f_idx st + j < n ->
  exists st', record_position st j x = Ok st'.
Proof.
  intros ((slots & Hs & Hsl) & (c & Hc & Hcl) & (a & Ha & Hal)) Hk.
  unfold Evaluator.record_position. rewrite Ha, Hc. simpl.
  destruct (lookup_lt_is_Some_2 a (f_idx st + j)) as [p Hp]; [lia|].
  destruct (lookup_lt_is_Some_2 c (f_idx st + j)) as [m Hm]; [lia|].
  destruct (lookup_lt_is_Some_2 slots (f_idx st + j)) as [cell Hcell]; [lia|].
  rewrite (getitem_Some _ _ _ Hp), (getitem_Some _ _ _ Hm),
    (getitem_Some _ _ _ Hs). simpl.
  rewrite (getitem_Some _ _ _ Hcell). simpl.
  destruct last; simpl; eauto.
Qed.

Lemma record_position_shaped (st st' : locals) (j n : nat) (x : E * P) :
  record_position st j x = Ok st' -> shaped n st -> shaped n st'.
Proof.
  intros H ((slots & Hs & Hsl) & (c & Hc & Hcl) & (a & Ha & Hal)).
  apply record_position_inv in H
    as (Hseq & _ & _ & _ & (c0 & m & Hc0 & _ & Hc') &
        (slots0 & cell & Hs0 & _ & Hp') & Hsc).
  rewrite Hc in Hc0. injection Hc0 as <-.
  rewrite Hs in Hs0. injection Hs0 as <-.
  split; [|split].
  - rewrite Hseq, Hp'. eexists. split.
    + apply list_lookup_insert_eq. eapply lookup_lt_Some, Hs.
    + rewrite length_insert. exact Hsl.
  - rewrite Hc'. eexists. split; [reflexivity|].
    rewrite length_insert. exact Hcl.
  - destruct last.
    + destruct Hsc as (a0 & p & Ha0 & _ & Ha').
      rewrite Ha in Ha0. injection Ha0 as <-.
      rewrite Ha'. eexists. split; [reflexivity|].
      rewrite length_insert. exact Hal.
    + rewrite Hsc, Ha. eauto.
Qed.

(** *** One window, lines 68-72 *)

Lemma record_window_returns (it : item) (j : nat) (st : locals) (n : nat) :
  shaped n st -> f_idx st + j + length it <= n ->
  exists st', record_window st j it = Ok st' /\ shaped n st'.
Proof.
  revert j st. induction it as [|x it IH]; intros j st Hsh Hb; simpl in *.
  - eauto.
  - destruct (record_position_returns st j n x Hsh) as [st1 H1]; [lia|].
    rewrite H1. simpl.
    pose proof (record_position_shaped _ _ _ _ _ H1 Hsh) as Hsh1.
    apply record_position_inv in H1 as (_ & Hf & _).
    apply IH; [exact Hsh1 | lia].
Qed.

(** A window leaves the cursor, the frame list and the saved files
    alone. *)
Lemma record_window_cursor (it : item) (j : nat) (st st' : locals) :
  record_window st j it = Ok st' ->
  seq_idx st' = seq_idx st /\ f_idx st' = f_idx st /\
  fnames st' = fnames st /\ saved st' = saved st /\
  length (per_frame_error st') = length (per_frame_error st).
Proof.
  revert j st. induction it as [|x it IH]; intros j st H; simpl in H.
  - injection H as <-. auto.
  - destruct (record_position st j x) as [st1|] eqn:H1; [|discriminate].
    simpl in H. apply IH in H as (-> & -> & -> & -> & ->).
    apply record_position_inv in H1
      as (-> & -> & -> & -> & _ & (slots & cell & _ & _ & ->) & _).
    rewrite length_insert. auto.
Qed.

Lemma in_window_cons (f n k : nat) :
  in_window f (S n) k = (k =? f) || in_window (S f) n k.
Proof.
  unfold in_window.
  destruct (Nat.eqb_spec k f), (Nat.leb_spec f k), (Nat.leb_spec (S f) k),
    (Nat.ltb_spec k (f + S n)), (Nat.ltb_spec k (S f + n)); simpl; lia.
Qed.

(** A window adds one to the inspection count of each of its frames, and
    to no other, whatever [last] is. *)
Lemma record_window_counts (it : item) (j : nat) (st st' : locals) (c : list Z) :
  record_window st j it = Ok st' -> inspection_count st = Some c ->
  exists c', inspection_count st' = Some c' /\ length c' = length c /\
    (forall k, c' !! k =
       (fun n => if in_window (f_idx st + j) (length it) k then (n + 1)%Z else n)
         <$> c !! k) /\
    sum_counts c' = (sum_counts c + Z.of_nat (length it))%Z.
Proof.
  revert j st c. induction it as [|x it IH]; intros j st c H Hc; simpl in H.
  - injection H as <-. exists c. split; [exact Hc|]. split; [reflexivity|].
    split; [|simpl; lia]. intros k.
    replace (in_window (f_idx st + j) (length (@nil (E * P))) k) with false.
    + destruct (c !! k); reflexivity.
    + symmetry. apply not_true_iff_false. rewrite in_window_spec. simpl. lia.
  - destruct (record_position st j x) as [st1|] eqn:H1; [|discriminate].
    simpl in H.
    apply record_position_inv in H1
      as (_ & Hf & _ & _ & (c0 & n & Hc0 & Hn & Hc1) & _).
    rewrite Hc in Hc0. injection Hc0 as <-.
    destruct (IH _ _ _ H Hc1) as (c' & Hc' & Hl & Hk & Hsum).
    exists c'. split; [exact Hc'|]. split; [rewrite Hl; apply length_insert|].
    split.
    + intros k. rewrite Hk, Hf. simpl length. rewrite in_window_cons.
      replace (f_idx st + S j) with (S (f_idx st + j)) by lia.
      destruct (Nat.eqb_spec k (f_idx st + j)) as [->|Hne]; simpl.
      * rewrite list_lookup_insert_eq by (eapply lookup_lt_Some, Hn).
        rewrite Hn. simpl.
        replace (in_window (S (f_idx st + j)) (length it) (f_idx st + j))
          with false; [reflexivity|].
        symmetry. apply not_true_iff_false. rewrite in_window_spec. lia.
      * rewrite list_lookup_insert_ne by lia. reflexivity.
    + rewrite Hsum, (sum_counts_insert _ _ _ Hn). simpl length. lia.
Qed.

(** A window appends the error of each position to the cell of its frame
    in the accumulator of the current sequence, and leaves the
    accumulators of the other sequences alone. *)
Lemma record_window_slots (it : item) (j : nat) (st st' : locals)
  (slots : list (list E)) :
  record_window st j it = Ok st' ->
  per_frame_error st !! seq_idx st = Some slots ->
  (exists slots', per_frame_error st' !! seq_idx st = Some slots' /\
     length slots' = length slots /\
     (forall i x, it !! i = Some x ->
        exists cell, slots !! (f_idx st + j + i) = Some cell /\
          slots' !! (f_idx st + j + i) = Some (cell ++ [x.1])) /\
     (forall k, k < f_idx st + j -> slots' !! k = slots !! k)) /\
  (forall s, s <> seq_idx st ->
     per_frame_error st' !! s = per_frame_error st !! s).
Proof.
  revert j st slots. induction it as [|x it IH]; intros j st slots H Hs;
    simpl in H.
  - injection H as <-. split; [|auto]. exists slots.
    split; [exact Hs|]. split; [reflexivity|]. split; [|auto].
    intros i y Hi. discriminate.
  - destruct (record_position st j x) as [st1|] eqn:H1; [|discriminate].
    simpl in H.
    apply record_position_inv in H1
      as (Hseq & Hf & _ & _ & _ & (slots0 & cell & Hs0 & Hcell & Hp1) & _).
    rewrite Hs in Hs0. injection Hs0 as <-.
    assert (Hs1 : per_frame_error st1 !! seq_idx st1 =
                  Some (<[f_idx st + j := cell ++ [x.1]]> slots)).
    { rewrite Hseq, Hp1. apply list_lookup_insert_eq.
      eapply lookup_lt_Some, Hs. }
    destruct (IH _ _ _ H Hs1) as ((slots' & Hs' & Hl & Hin & Hlow) & Hoth).
    rewrite Hseq, Hf in *. split.
    + exists slots'. split; [exact Hs'|].
      split; [rewrite Hl; apply length_insert|]. split.
      * intros [|i] y Hi; simpl in Hi.
        -- injection Hi as <-. exists cell. rewrite Nat.add_0_r, Hlow by lia.
           split; [exact Hcell|].
           apply list_lookup_insert_eq. eapply lookup_lt_Some, Hcell.
        -- replace (f_idx st + j + S i) with (f_idx st + S j + i) by lia.
           destruct (Hin i y Hi) as (cell' & Hc1 & Hc2).
           exists cell'. split; [|exact Hc2].
           rewrite list_lookup_insert_ne in Hc1 by lia. exact Hc1.
      * intros k Hk. rewrite Hlow, list_lookup_insert_ne by lia. reflexivity.
    + intros s Hne. rewrite Hoth, Hp1 by exact Hne.
      apply list_lookup_insert_ne. auto.
Qed.

(** Only a pass with [last] adds the squared residuals to [anom_scores]. *)
Lemma record_window_scores (it : item) (j : nat) (st st' : locals) :
  record_window st j it = Ok st' ->
  if last
  then forall a, anom_scores st = Some a ->
    exists a', anom_scores st' = Some a' /\ length a' = length a /\
      (forall i x, it !! i = Some x ->
         exists p, a !! (f_idx st + j + i) = Some p /\
           a' !! (f_idx st + j + i) = Some (padd p x.2)) /\
      (forall k, k < f_idx st + j -> a' !! k = a !! k)
  else anom_scores st' = anom_scores st.
Proof.
  revert j st. induction it as [|x it IH]; intros j st H; simpl in H.
  - injection H as <-. destruct last; [|reflexivity].
    intros a Ha. exists a. split; [exact Ha|]. split; [reflexivity|].
    split; [|auto]. intros i y Hi. discriminate.
  - destruct (record_position st j x) as [st1|] eqn:H1; [|discriminate].
    simpl in H. apply IH in H.
    apply record_position_inv in H1 as (_ & Hf & _ & _ & _ & _ & Hsc).
    destruct last.
    + intros a Ha. destruct Hsc as (a0 & p & Ha0 & Hp & Ha1).
      rewrite Ha in Ha0. injection Ha0 as <-.
      destruct (H _ Ha1) as (a' & Ha' & Hl & Hin & Hlow).
      rewrite Hf in *.
      exists a'. split; [exact Ha'|].
      split; [rewrite Hl; apply length_insert|]. split.
      * intros [|i] y Hi; simpl in Hi.
        -- injection Hi as <-. exists p. rewrite Nat.add_0_r, Hlow by lia.
           split; [exact Hp|].
           apply list_lookup_insert_eq. eapply lookup_lt_Some, Hp.
        -- replace (f_idx st + j + S i) with (f_idx st + S j + i) by lia.
           destruct (Hin i y Hi) as (p' & Hp1 & Hp2).
           exists p'. split; [|exact Hp2].
           rewrite list_lookup_insert_ne in Hp1 by lia. exact Hp1.
      * intros k Hk. rewrite Hlow, list_lookup_insert_ne by lia. reflexivity.
    + congruence.
Qed.

(** *** The cursor, lines 73-87 *)

Lemma save_scores_inv (st st' : locals) :
  save_scores st = Ok st' ->
  per_frame_error st' = per_frame_error st /\ seq_idx st' = seq_idx st /\
  f_idx st' = f_idx st /\ fnames st' = fnames st /\
  inspection_count st' = inspection_count st /\
  (last = false -> st' = st).
Proof.
  unfold Evaluator.save_scores. destruct last.
  - destruct (anom_scores st); [|discriminate]. simpl.
    destruct (inspection_count st); [|discriminate]. simpl.
    intros [= <-]. simpl. repeat split; try reflexivity. discriminate.
  - intros [= <-]. repeat split; reflexivity.
Qed.

Lemma advance_inv (st st' : locals) :
  advance st = Ok st' ->
  per_frame_error st' = per_frame_error st /\
  inspection_count st' = inspection_count st /\
  (last = false ->
     anom_scores st' = anom_scores st /\ saved st' = saved st) /\
  if (Z.of_nat (f_idx st) <? Z.of_nat (fnames st) - tvol)%Z
  then seq_idx st' = seq_idx st /\ f_idx st' = f_idx st + 1 /\
       fnames st' = fnames st
  else seq_idx st' = seq_idx st + 1 /\ f_idx st' = 0 /\
       exists c, inspection_count st = Some c /\
                 Forall (fun n => (0 < n)%Z) c.
Proof.
  unfold Evaluator.advance.
  destruct (Z.of_nat (f_idx st) <? Z.of_nat (fnames st) - tvol)%Z.
  - intros [= <-]. simpl. repeat split; reflexivity.
  - destruct (if length dirs <? seq_idx st + 1 then _ else _) as [fn|];
      [|discriminate].
    simpl. destruct (inspection_count st) as [c|] eqn:Hc; [|discriminate].
    simpl. destruct (forallb _ c) eqn:Hall; [|discriminate].
    intros H. apply save_scores_inv in H as (-> & -> & -> & _ & Hi & Hl).
    simpl in *. split; [reflexivity|]. split; [exact Hi|].
    split; [intros Hf; rewrite (Hl Hf); split; reflexivity|].
    split; [reflexivity|]. split; [reflexivity|].
    exists c. split; [reflexivity|].
    apply Forall_forall. intros n Hn.
    rewrite forallb_forall in Hall.
    apply Z.ltb_lt, Hall, list_elem_of_In, Hn.
Qed.

(** [process_item] is its three steps in a row. *)
Lemma process_item_inv (st st' : locals) (it : item) :
  process_item st it = Ok st' ->
  exists st1 st2, allocate st = Ok st1 /\ record_window st1 0 it = Ok st2 /\
                  advance st2 = Ok st'.
Proof.
  unfold Evaluator.process_item.
  destruct (allocate st) as [st1|]; [|discriminate]. simpl.
  destruct (record_window st1 0 it) as [st2|] eqn:Hw; [|discriminate]. simpl.
  intros H. exists st1, st2. auto.
Qed.

Lemma allocate_cursor (st st1 : locals) :
  allocate st = Ok st1 ->
  seq_idx st1 = seq_idx st /\ f_idx st1 = f_idx st /\
  fnames st1 = fnames st /\ saved st1 = saved st /\
  length (per_frame_error st1) = length (per_frame_error st) /\
  forall s, s <> seq_idx st ->
    per_frame_error st1 !! s = per_frame_error st !! s.
Proof.
  destruct (Nat.eq_dec (f_idx st) 0) as [Hf|Hf].
  - intros H. apply (allocate_fresh _ _ Hf) in H
      as (-> & -> & -> & -> & _ & _ & -> & _).
    rewrite length_insert. repeat split; auto; try lia.
    intros s Hs. apply list_lookup_insert_ne. auto.
  - rewrite (allocate_skip _ Hf). intros [= <-]. repeat split; auto.
Qed.

(** C3, as the code has it: while the frame list loaded is that of the
    current sequence, of [l] frames, an item moves the cursor to the next
    frame when [f_idx < l - tvol], strictly, and otherwise to frame 0 of
    the next sequence; the rest of the batch goes on from there, and the
    errors of the next item are recorded in the accumulator of the new
    sequence, from its frame 0 on, those of the sequence just left
    staying as they are. *)
Theorem cursor_rule (st st1 : locals) (it1 : item) (l : nat) :
  dirs !! seq_idx st = Some l -> fnames st = l ->
  process_item st it1 = Ok st1 ->
  (forall b : batch,
     for_each process_item st (it1 :: b) = for_each process_item st1 b) /\
  ((Z.of_nat (f_idx st) < Z.of_nat l - tvol)%Z ->
     seq_idx st1 = seq_idx st /\ f_idx st1 = f_idx st + 1) /\
  ((Z.of_nat l - tvol <= Z.of_nat (f_idx st))%Z ->
     seq_idx st1 = seq_idx st + 1 /\ f_idx st1 = 0 /\
     forall (it2 : item) (st2 : locals),
       process_item st1 it2 = Ok st2 ->
       per_frame_error st2 !! seq_idx st = per_frame_error st1 !! seq_idx st /\
       exists slots, per_frame_error st2 !! (seq_idx st + 1) = Some slots /\
         forall j x, it2 !! j = Some x -> slots !! j = Some [x.1]).
Proof.
  intros Hd Hl H1.
  split; [intros b; simpl; rewrite H1; reflexivity|].
  destruct (process_item_inv _ _ _ H1) as (sa & sb & Ha & Hw & Hadv).
  apply allocate_cursor in Ha as (Has & Haf & Han & _).
  apply record_window_cursor in Hw as (Hbs & Hbf & Hbn & _).
  apply advance_inv in Hadv as (_ & _ & _ & Hcur).
  rewrite Hbf, Hbn, Haf, Han, Hl, Hbs, Has in Hcur.
  split.
  - intros Hlt. apply Z.ltb_lt in Hlt. rewrite Hlt in Hcur.
    destruct Hcur as (-> & -> & _). auto.
  - intros Hge. apply Z.ltb_ge in Hge. rewrite Hge in Hcur.
    destruct Hcur as (Hs1 & Hf1 & _).
    split; [exact Hs1|]. split; [exact Hf1|].
    intros it2 st2 H2.
    destruct (process_item_inv _ _ _ H2) as (ta & tb & Ha2 & Hw2 & Hadv2).
    pose proof (allocate_cursor _ _ Ha2) as (Hts & _ & _ & _ & _ & Hoth).
    apply (allocate_fresh _ _ Hf1) in Ha2
      as (_ & Htf & _ & _ & Hfn & Hlen & Hpfe & _).
    assert (Hslot : per_frame_error ta !! seq_idx ta =
                    Some (replicate (fnames st1) [])).
    { rewrite Hts, Hpfe. apply list_lookup_insert_eq. exact Hlen. }
    destruct (record_window_slots _ _ _ _ _ Hw2 Hslot)
      as ((slots & Hslots & _ & Hin & _) & Hoth2).
    apply advance_inv in Hadv2 as (-> & _).
    rewrite Hts, Hs1 in *. split.
    + rewrite Hoth2, Hoth by lia. reflexivity.
    + exists slots. split; [exact Hslots|].
      intros j x Hx. destruct (Hin j x Hx) as (cell & Hcell & Hres).
      rewrite Htf in Hcell, Hres. simpl in Hcell, Hres.
      apply lookup_replicate in Hcell as [-> _]. exact Hres.
Qed.

(** C9, as the code has it: at frame 0 of a sequence the accumulators of
    the errors, the anomaly-score array and the inspection-count array are
    all allocated, with one entry per frame of the frame list loaded,
    whatever [last] is; every item adds one to the inspection count of
    each frame of its window, whatever [last] is; what happens only when
    [last] is the addition of the squared residuals to the anomaly scores
    and the saving: without [last] the anomaly scores stay as allocated
    and nothing is saved. *)
Theorem accumulators_regardless_of_last (st st' : locals) (it : item) :
  process_item st it = Ok st' ->
  exists st1 st2,
    allocate st = Ok st1 /\ record_window st1 0 it = Ok st2 /\
    advance st2 = Ok st' /\
    (f_idx st = 0 ->
       per_frame_error st1 !! seq_idx st = Some (replicate (fnames st) []) /\
       anom_scores st1 = Some (replicate (fnames st) pzero) /\
       inspection_count st1 = Some (replicate (fnames st) 0%Z)) /\
    (f_idx st <> 0 -> st1 = st) /\
    (forall c1, inspection_count st1 = Some c1 ->
       exists c, inspection_count st' = Some c /\ length c = length c1 /\
         forall k, c !! k =
           (fun n => if in_window (f_idx st) (length it) k
                     then (n + 1)%Z else n) <$> c1 !! k) /\
    (if last
     then forall a1, anom_scores st1 = Some a1 ->
       exists a2, anom_scores st2 = Some a2 /\
         forall j x, it !! j = Some x ->
           exists p, a1 !! (f_idx st + j) = Some p /\
                     a2 !! (f_idx st + j) = Some (padd p x.2)
     else anom_scores st' = anom_scores st1 /\ saved st' = saved st).
Proof.
  intros H.
  destruct (process_item_inv _ _ _ H) as (st1 & st2 & Ha & Hw & Hadv).
  exists st1, st2. do 3 (split; [assumption|]).
  pose proof (allocate_cursor _ _ Ha) as (Has & Haf & Han & Hasv & _).
  pose proof (record_window_cursor _ _ _ _ Hw) as (_ & _ & _ & Hwsv & _).
  pose proof (advance_inv _ _ Hadv) as (_ & Hic & Hnl & _).
  split; [|split; [|split]].
  - intros Hf. apply (allocate_fresh _ _ Hf) in Ha
      as (_ & _ & _ & _ & _ & Hlen & -> & -> & ->).
    repeat split; auto. apply list_lookup_insert_eq. exact Hlen.
  - intros Hf. rewrite (allocate_skip _ Hf) in Ha. congruence.
  - intros c1 Hc1.
    destruct (record_window_counts _ _ _ _ _ Hw Hc1) as (c & Hc & Hlen & Hk & _).
    exists c. rewrite Hic. split; [exact Hc|]. split; [exact Hlen|].
    intros k. rewrite Hk, Haf, Nat.add_0_r. reflexivity.
  - pose proof (record_window_scores _ _ _ _ Hw) as Hsc.
    destruct last.
    + intros a1 Ha1. destruct (Hsc a1 Ha1) as (a2 & Ha2 & _ & Hin & _).
      exists a2. split; [exact Ha2|]. intros j x Hx.
      destruct (Hin j x Hx) as (p & Hp1 & Hp2).
      rewrite Haf, Nat.add_0_r in Hp1, Hp2. eauto.
    + destruct (Hnl eq_refl) as [-> ->]. split; congruence.
Qed.

(** *** A whole sequence, when the frame list loaded is its own *)

Lemma advance_within (st : locals) :
  (Z.of_nat (f_idx st) < Z.of_nat (fnames st) - tvol)%Z ->
  advance st =
  Ok {| per_frame_error := per_frame_error st;
        seq_idx := seq_idx st;
        f_idx := f_idx st + 1;
        fnames := fnames st;
        anom_scores := anom_scores st;
        inspection_count := inspection_count st;
        saved := saved st |}.
Proof.
  intros H. apply Z.ltb_lt in H. unfold Evaluator.advance. rewrite H.
  reflexivity.
Qed.

Lemma advance_boundary (st : locals) (c : list Z) (a : list P) :
  (Z.of_nat (fnames st) - tvol <= Z.of_nat (f_idx st))%Z ->
  seq_idx st < length dirs ->
  inspection_count st = Some c -> Forall (fun n => (0 < n)%Z) c ->
  anom_scores st = Some a ->
  exists st', advance st = Ok st' /\
    seq_idx st' = seq_idx st + 1 /\ f_idx st' = 0 /\
    fnames st' = fnames st /\
    per_frame_error st' = per_frame_error st /\
    inspection_count st' = Some c.
Proof.
  intros H Hs Hc Hpos Ha. apply Z.ltb_ge in H.
  unfold Evaluator.advance. rewrite H.
  destruct (Nat.ltb_spec (length dirs) (seq_idx st + 1)); [lia|]. simpl.
  rewrite Hc. simpl.
  assert (Hall : forallb (fun n => (0 <? n)%Z) c = true).
  { apply forallb_forall. intros n Hn. apply Z.ltb_lt.
    rewrite Forall_forall in Hpos. apply Hpos, list_elem_of_In, Hn. }
  rewrite Hall. unfold Evaluator.save_scores. simpl. rewrite ?Ha, ?Hc.
  destruct last; simpl; eexists; (split; [reflexivity|]); simpl; auto.
Qed.

(** The windows of a sequence from window [w] on. *)
Lemma pass_from (t l : nat) (its : list item) :
  tvol = Z.of_nat t -> 1 <= t <= l ->
  Forall (fun it : item => length it = t) its ->
  forall (w : nat) (st : locals),
    f_idx st = w -> fnames st = l -> seq_idx st < length dirs ->
    seq_idx st < length (per_frame_error st) ->
    (w <> 0 -> shaped l st /\ counted l t w st) ->
    1 <= length its -> w + length its = l - t + 1 ->
    exists st', for_each process_item st its = Ok st' /\
      seq_idx st' = seq_idx st + 1 /\ f_idx st' = 0 /\
      (exists slots, per_frame_error st' !! seq_idx st = Some slots /\
                     length slots = l) /\
      counted l t (l - t + 1) st'.
Proof.
  intros Ht Htl Hits. induction Hits as [|it its Hit _ IH];
    intros w st Hf Hn Hsd Hsp Hinv Hlen Hw; simpl in Hlen, Hw; [lia|].
  (* allocation *)
  assert (Hal : exists st1, allocate st = Ok st1 /\
            seq_idx st1 = seq_idx st /\ f_idx st1 = w /\ fnames st1 = l /\
            length (per_frame_error st1) = length (per_frame_error st) /\
            shaped l st1 /\ counted l t w st1).
  { destruct (Nat.eq_dec w 0) as [->|Hw0].
    - destruct (allocate_returns st Hf) as [st1 H1]; [lia | exact Hsp |].
      exists st1. split; [exact H1|].
      pose proof (allocate_cursor _ _ H1) as (Hs & _ & _ & _ & Hl & _).
      apply (allocate_fresh _ _ Hf) in H1
        as (_ & Hf1 & Hn1 & _ & _ & _ & Hp & Ha & Hc).
      rewrite Hn in *.
      split; [exact Hs|]. split; [exact Hf1|]. split; [exact Hn1|].
      split; [exact Hl|]. split.
      + split; [|split].
        * exists (replicate l []). rewrite Hs, Hp. split.
          -- apply list_lookup_insert_eq. exact Hsp.
          -- apply length_replicate.
        * exists (replicate l 0%Z). split; [exact Hc | apply length_replicate].
        * exists (replicate l pzero). split; [exact Ha | apply length_replicate].
      + exists (replicate l 0%Z). split; [exact Hc|].
        split; [apply length_replicate|]. split.
        * intros k Hk. rewrite coverage_0. apply lookup_replicate_2. exact Hk.
        * rewrite sum_counts_replicate. lia.
    - exists st. rewrite allocate_skip by lia.
      destruct (Hinv Hw0) as [Hsh Hcnt].
      split; [reflexivity|]. do 4 (split; [auto|]). split; assumption. }
  destruct Hal as (st1 & H1 & Hs1 & Hf1 & Hn1 & Hl1 & Hsh1 & (c1 & Hc1 & Hcl1 & Hck1 & Hsum1)).
  (* the window *)
  destruct (record_window_returns it 0 st1 l Hsh1) as (st2 & H2 & Hsh2);
    [lia|].
  pose proof (record_window_cursor _ _ _ _ H2) as (Hs2 & Hf2 & Hn2 & _ & Hl2).
  destruct (record_window_counts _ _ _ _ _ H2 Hc1) as (c2 & Hc2 & Hcl2 & Hck2 & Hsum2).
  assert (Hcnt2 : counted l t (S w) st2).
  { exists c2. split; [exact Hc2|]. split; [lia|]. split.
    - intros k Hk. rewrite Hck2, (Hck1 k Hk), Hf1, Nat.add_0_r, Hit. simpl.
      rewrite coverage_succ. reflexivity.
    - rewrite Hsum2, Hsum1, Hit. lia. }
  simpl. unfold Evaluator.process_item. rewrite H1. simpl. rewrite H2. simpl.
  destruct its as [|it' its'].
  - (* the last window of the sequence *)
    simpl in Hw. assert (Hwl : w = l - t) by lia.
    destruct Hsh2 as (Hslots2 & _ & (a2 & Ha2 & _)).
    destruct (advance_boundary st2 c2 a2) as (st3 & H3 & Hs3 & Hf3 & _ & Hp3 & Hc3);
      try assumption; try lia.
    { apply Forall_forall. intros n Hin.
      apply list_elem_of_lookup in Hin as [k Hk].
      assert (Hkl : k < l) by (apply lookup_lt_Some in Hk; lia).
      rewrite Hck2, (Hck1 k Hkl), Hf1, Nat.add_0_r, Hit in Hk. simpl in Hk.
      injection Hk as <-. rewrite <- coverage_succ.
      replace (S w) with (l - t + 1) by lia.
      pose proof (coverage_full t l k Htl Hkl). lia. }
    rewrite H3. simpl. exists st3. split; [reflexivity|].
    split; [lia|]. split; [exact Hf3|]. split.
    + rewrite Hp3, <- Hs1, <- Hs2. exact Hslots2.
    + replace (l - t + 1) with (S w) by lia.
      destruct Hcnt2 as (c & Hc & Hrest). rewrite Hc2 in Hc. injection Hc as <-.
      exists c2. split; [exact Hc3 | exact Hrest].
  - (* a window inside the sequence *)
    simpl in Hw. rewrite advance_within by lia.
    destruct (IH (S w)
                {| per_frame_error := per_frame_error st2;
                   seq_idx := seq_idx st2;
                   f_idx := f_idx st2 + 1;
                   fnames := fnames st2;
                   anom_scores := anom_scores st2;
                   inspection_count := inspection_count st2;
                   saved := saved st2 |})
      as (st' & H' & Hs' & Hf' & Hslots' & Hcnt'); simpl; try lia.
    { intros _. split; [exact Hsh2 | exact Hcnt2]. }
    simpl in Hs', Hslots'. rewrite Hs2, Hs1 in Hs', Hslots'.
    exists st'. auto.
Qed.

(** X1: a sequence of [l] frames whose [l - t + 1] windows of [t] frames are
    processed from frame 0 on with its own frame list loaded: the pass
    over it returns, the cursor is at frame 0 of the next sequence, the
    sequence has [l] accumulator slots, every inspection count lies
    between 1 and [t], and the counts sum to [(l - t + 1) * t]. *)
Lemma sequence_pass (t l : nat) (its : list item) (st : locals) :
  tvol = Z.of_nat t -> 1 <= t <= l ->
  f_idx st = 0 -> fnames st = l -> seq_idx st < length dirs ->
  seq_idx st < length (per_frame_error st) ->
  length its = l - t + 1 -> Forall (fun it : item => length it = t) its ->
  exists st', for_each process_item st its = Ok st' /\
    seq_idx st' = seq_idx st + 1 /\ f_idx st' = 0 /\
    (exists slots, per_frame_error st' !! seq_idx st = Some slots /\
                   length slots = l) /\
    exists c, inspection_count st' = Some c /\ length c = l /\
      Forall (fun n => (1 <= n <= Z.of_nat t)%Z) c /\
      sum_counts c = (Z.of_nat (l - t + 1) * Z.of_nat t)%Z.
Proof.
  intros Ht Htl Hf Hn Hsd Hsp Hlen Hits.
  destruct (pass_from t l its Ht Htl Hits 0 st)
    as (st' & H' & Hs' & Hf' & Hslots & (c & Hc & Hcl & Hck & Hsum));
    try assumption; try lia.
  exists st'. split; [exact H'|]. split; [exact Hs'|]. split; [exact Hf'|].
  split; [exact Hslots|]. exists c.
  split; [exact Hc|]. split; [exact Hcl|]. split; [|exact Hsum].
  apply Forall_forall. intros n Hin.
  apply list_elem_of_lookup in Hin as [k Hk].
  assert (Hkl : k < l) by (apply lookup_lt_Some in Hk; lia).
  rewrite (Hck k Hkl) in Hk. injection Hk as <-.
  apply coverage_full; assumption.
Qed.

(** *** The loop over the batches, lines 55-58 *)

Lemma test_loop_from (source : nat -> option batch) (bs : list batch) :
  forall (k fuel : nat) (st st' : locals),
    (forall i b, bs !! i = Some b -> source (k + i) = Some b) ->
    source (k + length bs) = None ->
    for_each process_batch st bs = Ok st' ->
    length bs < fuel ->
    test_loop fuel source k st = Some (Ok (st', k + length bs)).
Proof.
  induction bs as [|b bs IH]; intros k fuel st st' Hsrc Hend Hrun Hfuel;
    (destruct fuel as [|fuel]; [simpl in Hfuel; lia|]); simpl in *.
  - rewrite Nat.add_0_r in *. rewrite Hend. congruence.
  - rewrite <- (Nat.add_0_r k) at 1. rewrite (Hsrc 0 b eq_refl).
    destruct (process_batch st b) as [st1|]; [|discriminate]. simpl in Hrun.
    replace (k + S (length bs)) with (S k + length bs) in * by lia.
    apply IH; try assumption; [|lia].
    intros i b' Hb'. replace (S k + i) with (k + S i) by lia.
    apply Hsrc. exact Hb'.
Qed.

(** An exception raised while a batch is processed ends the loop: it is
    the result of the pass. *)
Lemma test_loop_raises (source : nat -> option batch) (bs : list batch) :
  forall (k fuel : nat) (st : locals) (e : exn),
    (forall i b, bs !! i = Some b -> source (k + i) = Some b) ->
    for_each process_batch st bs = Raise e ->
    length bs <= fuel ->
    test_loop fuel source k st = Some (Raise e).
Proof.
  induction bs as [|b bs IH]; intros k fuel st e Hsrc Hrun Hfuel;
    simpl in *; [discriminate|].
  destruct fuel as [|fuel]; [lia|]. simpl.
  rewrite <- (Nat.add_0_r k) at 1. rewrite (Hsrc 0 b eq_refl).
  destruct (process_batch st b) as [st1|e1]; simpl in Hrun.
  - apply IH; try assumption; [|lia].
    intros i b' Hb'. replace (S k + i) with (k + S i) by lia.
    apply Hsrc. exact Hb'.
  - congruence.
Qed.


(** *** Error cells and inspection counts *)

Lemma record_window_aligned (it : item) (j : nat) (st st' : locals) :
  record_window st j it = Ok st' -> aligned st -> aligned st'.
Proof.
  revert j st. induction it as [|x it IH]; intros j st H Hal; simpl in H.
  - injection H as <-. exact Hal.
  - destruct (record_position st j x) as [st1|] eqn:H1; [|discriminate].
    simpl in H. apply (IH _ _ H). clear IH H.
    destruct Hal as (slots & c & Hs & Hc & Heq).
    apply record_position_inv in H1
      as (Hseq & _ & _ & _ & (c0 & n & Hc0 & Hn & Hc1) &
          (slots0 & cell & Hs0 & Hcell & Hp1) & _).
    rewrite Hc in Hc0. injection Hc0 as <-.
    rewrite Hs in Hs0. injection Hs0 as <-.
    exists (<[f_idx st + j := cell ++ [x.1]]> slots),
           (<[f_idx st + j := (n + 1)%Z]> c).
    split; [|split; [exact Hc1|]].
    + rewrite Hseq, Hp1. apply list_lookup_insert_eq.
      eapply lookup_lt_Some, Hs.
    + subst c. rewrite list_lookup_fmap, Hcell in Hn. injection Hn as <-.
      rewrite list_fmap_insert. simpl. f_equal.
      rewrite length_app. simpl. lia.
Qed.

(** The predicates read a few fields only: they pass to a state that has
    the same values in these. *)
Lemma shaped_same (n : nat) (a b : locals) :
  per_frame_error b = per_frame_error a -> seq_idx b = seq_idx a ->
  inspection_count b = inspection_count a ->
  anom_scores b = anom_scores a ->
  shaped n a -> shaped n b.
Proof. unfold shaped. intros -> -> -> ->. auto. Qed.

Lemma counted_same (l t w : nat) (a b : locals) :
  inspection_count b = inspection_count a ->
  counted l t w a -> counted l t w b.
Proof. unfold counted. intros ->. auto. Qed.

Lemma aligned_same (a b : locals) :
  per_frame_error b = per_frame_error a -> seq_idx b = seq_idx a ->
  inspection_count b = inspection_count a ->
  aligned a -> aligned b.
Proof. unfold aligned. intros -> -> ->. auto. Qed.

(** One window of a sequence of [l] frames, at any point of it, with [l]
    as the length of the frame list loaded. *)
Lemma item_step (t l : nat) (st : locals) (it : item) :
  tvol = Z.of_nat t -> 1 <= t <= l -> fnames st = l ->
  seq_idx st < length dirs -> seq_idx st < length (per_frame_error st) ->
  f_idx st <= l - t ->
  (f_idx st <> 0 -> mid_sequence l t st) ->
  length it = t ->
  exists st', process_item st it = Ok st' /\ fnames st' = l /\
    length (per_frame_error st') = length (per_frame_error st) /\
    (forall s, s <> seq_idx st ->
       per_frame_error st' !! s = per_frame_error st !! s) /\
    (f_idx st < l - t ->
       seq_idx st' = seq_idx st /\ f_idx st' = f_idx st + 1 /\
       mid_sequence l t st') /\
    (f_idx st = l - t ->
       seq_idx st' = seq_idx st + 1 /\ f_idx st' = 0 /\
       complete l t st' (seq_idx st)).
Proof.
  intros Ht Htl Hn Hsd Hsp Hw Hinv Hit.
  (* allocation *)
  assert (Hal : exists st1, allocate st = Ok st1 /\
            seq_idx st1 = seq_idx st /\ f_idx st1 = f_idx st /\
            fnames st1 = l /\
            length (per_frame_error st1) = length (per_frame_error st) /\
            (forall s, s <> seq_idx st ->
               per_frame_error st1 !! s = per_frame_error st !! s) /\
            mid_sequence l t st1).
  { destruct (Nat.eq_dec (f_idx st) 0) as [Hf|Hf].
    - destruct (allocate_returns st Hf) as [st1 H1]; [lia | exact Hsp |].
      exists st1. split; [exact H1|].
      pose proof (allocate_cursor _ _ H1) as (Hs & _ & _ & _ & Hl & Hoth).
      apply (allocate_fresh _ _ Hf) in H1
        as (_ & Hf1 & Hn1 & _ & _ & _ & Hp & Ha & Hc).
      rewrite Hn in *.
      split; [exact Hs|]. split; [lia|]. split; [exact Hn1|].
      split; [exact Hl|]. split; [exact Hoth|].
      assert (Hslot : per_frame_error st1 !! seq_idx st1 = Some (replicate l [])).
      { rewrite Hs, Hp. apply list_lookup_insert_eq. exact Hsp. }
      split; [|split].
      + split; [|split].
        * exists (replicate l []). split; [exact Hslot | apply length_replicate].
        * exists (replicate l 0%Z). split; [exact Hc | apply length_replicate].
        * exists (replicate l pzero). split; [exact Ha | apply length_replicate].
      + rewrite Hf1. exists (replicate l 0%Z). split; [exact Hc|].
        split; [apply length_replicate|]. split.
        * intros k Hk. rewrite coverage_0. apply lookup_replicate_2. exact Hk.
        * rewrite sum_counts_replicate. lia.
      + exists (replicate l []), (replicate l 0%Z).
        split; [exact Hslot|]. split; [exact Hc|].
        rewrite fmap_replicate. reflexivity.
    - exists st. rewrite allocate_skip by exact Hf.
      split; [reflexivity|]. do 5 (split; [auto|]). exact (Hinv Hf). }
  destruct Hal as (st1 & H1 & Hs1 & Hf1 & Hn1 & Hl1 & Hoth1 & Hsh1 & Hcnt1 & Hal1).
  destruct Hcnt1 as (c1 & Hc1 & Hcl1 & Hck1 & Hsum1). rewrite Hf1 in *.
  (* the window *)
  destruct (record_window_returns it 0 st1 l Hsh1) as (st2 & H2 & Hsh2);
    [lia|].
  pose proof (record_window_cursor _ _ _ _ H2) as (Hs2 & Hf2 & Hn2 & _ & Hl2).
  pose proof (record_window_aligned _ _ _ _ H2 Hal1) as Hal2.
  destruct (record_window_counts _ _ _ _ _ H2 Hc1)
    as (c2 & Hc2 & Hcl2 & Hck2 & Hsum2).
  assert (Hcnt2 : counted l t (S (f_idx st)) st2).
  { exists c2. split; [exact Hc2|]. split; [lia|]. split.
    - intros k Hk. rewrite Hck2, (Hck1 k Hk), Hf1, Nat.add_0_r, Hit. simpl.
      rewrite coverage_succ. reflexivity.
    - rewrite Hsum2, Hsum1, Hit. lia. }
  assert (Hoth2 : forall s, s <> seq_idx st ->
            per_frame_error st2 !! s = per_frame_error st !! s).
  { intros s Hs. destruct Hsh1 as ((slots1 & Hslots1 & _) & _).
    destruct (record_window_slots _ _ _ _ _ H2 Hslots1) as (_ & Ho).
    rewrite Ho, Hoth1 by congruence. reflexivity. }
  unfold Evaluator.process_item. rewrite H1. simpl. rewrite H2. simpl.
  destruct (Nat.eq_dec (f_idx st) (l - t)) as [Hlast|Hmid].
  - (* the last window of the sequence *)
    destruct Hsh2 as (_ & _ & (a2 & Ha2 & _)).
    destruct (advance_boundary st2 c2 a2)
      as (st3 & H3 & Hs3 & Hf3 & Hn3 & Hp3 & Hc3); try assumption; try lia.
    { apply Forall_forall. intros n Hin.
      apply list_elem_of_lookup in Hin as [k Hk].
      assert (Hkl : k < l) by (apply lookup_lt_Some in Hk; lia).
      rewrite Hck2, (Hck1 k Hkl), Hf1, Nat.add_0_r, Hit in Hk. simpl in Hk.
      injection Hk as <-. rewrite <- coverage_succ.
      replace (S (f_idx st)) with (l - t + 1) by lia.
      pose proof (coverage_full t l k Htl Hkl). lia. }
    exists st3. split; [exact H3|]. split; [lia|]. split; [congruence|].
    split; [intros s Hs; rewrite Hp3; apply Hoth2; exact Hs|].
    split; [lia|]. intros _. split; [lia|]. split; [exact Hf3|].
    destruct Hal2 as (slots2 & c2' & Hslots2 & Hc2' & Heq).
    rewrite Hc2 in Hc2'. injection Hc2' as <-.
    destruct Hcnt2 as (c2' & Hc2' & _ & Hck & _).
    rewrite Hc2 in Hc2'. injection Hc2' as <-.
    exists slots2. rewrite Hp3, <- Hs1, <- Hs2. split; [exact Hslots2|].
    assert (Hlen : length slots2 = l).
    { rewrite <- Hcl1, <- Hcl2, Heq, length_fmap. reflexivity. }
    split; [exact Hlen|]. intros k Hk.
    destruct (lookup_lt_is_Some_2 slots2 k) as [cell Hcell]; [lia|].
    exists cell. split; [exact Hcell|].
    specialize (Hck k Hk). rewrite Heq, list_lookup_fmap, Hcell in Hck.
    injection Hck as ->. f_equal. lia.
  - (* a window inside the sequence *)
    rewrite advance_within by lia. eexists. split; [reflexivity|]. simpl.
    split; [lia|]. split; [congruence|]. split; [exact Hoth2|].
    split; [|lia]. intros _. split; [lia|]. split; [lia|].
    split; [|split].
    + eapply shaped_same; [..|exact Hsh2]; reflexivity.
    + simpl. replace (f_idx st2 + 1) with (S (f_idx st)) by lia.
      eapply counted_same; [|exact Hcnt2]. reflexivity.
    + eapply aligned_same; [..|exact Hal2]; reflexivity.
Qed.

Lemma complete_same (l t s : nat) (a b : locals) :
  per_frame_error b !! s = per_frame_error a !! s ->
  complete l t a s -> complete l t b s.
Proof. unfold complete. intros ->. auto. Qed.

(** *** Runs of sequences of the same length *)

(** Items processed with a frame list of [l] entries loaded, from any point
    of a run of [k] sequences that starts at sequence [s0]: the cursor
    moves on by one window per item, and every sequence it leaves is
    complete. *)
Lemma run_items (t l s0 k : nat) :
  tvol = Z.of_nat t -> 1 <= t <= l -> s0 + k <= length dirs ->
  forall (its : list item) (st : locals),
    Forall (fun it : item => length it = t) its ->
    fnames st = l -> s0 <= seq_idx st -> f_idx st <= l - t ->
    (f_idx st <> 0 -> mid_sequence l t st) ->
    length (per_frame_error st) = length dirs ->
    (seq_idx st - s0) * (l - t + 1) + f_idx st + length its
      <= k * (l - t + 1) ->
    exists st', for_each process_item st its = Ok st' /\
      fnames st' = l /\ seq_idx st <= seq_idx st' /\ f_idx st' <= l - t /\
      (f_idx st' <> 0 -> mid_sequence l t st') /\
      length (per_frame_error st') = length dirs /\
      (seq_idx st' - s0) * (l - t + 1) + f_idx st' =
        (seq_idx st - s0) * (l - t + 1) + f_idx st + length its /\
      (forall s, s < seq_idx st ->
         per_frame_error st' !! s = per_frame_error st !! s) /\
      (forall s, seq_idx st <= s < seq_idx st' -> complete l t st' s).
Proof.
  intros Ht Htl Hk its. induction its as [|it its IH];
    intros st Hits Hn Hs0 Hf Hmid Hlen Hpos.
  - exists st. simpl in *. split; [reflexivity|].
    do 5 (split; [auto|]). split; [lia|]. split; [auto|]. intros s Hs. lia.
  - apply Forall_cons in Hits as [Hit Hits]. simpl in Hpos.
    assert (Hsk : seq_idx st - s0 < k) by nia.
    destruct (item_step t l st it Ht Htl Hn) as
      (st1 & H1 & Hn1 & Hl1 & Hoth1 & Hin & Hout);
      try assumption; try lia.
    assert (Hcase : f_idx st < l - t \/ f_idx st = l - t) by lia.
    assert (Hst1 : seq_idx st <= seq_idx st1 /\ f_idx st1 <= l - t /\
              (f_idx st1 <> 0 -> mid_sequence l t st1) /\
              (seq_idx st1 - s0) * (l - t + 1) + f_idx st1 =
                (seq_idx st - s0) * (l - t + 1) + f_idx st + 1 /\
              (forall s, seq_idx st <= s < seq_idx st1 -> complete l t st1 s)).
    { destruct Hcase as [Hc|Hc].
      - destruct (Hin Hc) as (Hs & Hf1 & Hm).
        split; [lia|]. split; [lia|]. split; [auto|].
        split; [rewrite Hs, Hf1; lia|]. intros s Hr. lia.
      - destruct (Hout Hc) as (Hs & Hf1 & Hcomp).
        split; [lia|]. split; [lia|]. split; [intros Hne; lia|].
        split; [rewrite Hs, Hf1; nia|].
        intros s Hr. replace s with (seq_idx st) by lia. exact Hcomp. }
    destruct Hst1 as (Hle1 & Hf1 & Hmid1 & Hpos1 & Hcomp1).
    destruct (IH st1) as
      (st' & H' & Hn' & Hle' & Hf' & Hmid' & Hl' & Hpos' & Hoth' & Hcomp');
      try assumption; try lia.
    exists st'. simpl. rewrite H1. simpl.
    split; [exact H'|]. split; [exact Hn'|]. split; [lia|].
    split; [exact Hf'|]. split; [exact Hmid'|]. split; [exact Hl'|].
    split; [lia|]. split.
    + intros s Hs. rewrite Hoth', Hoth1 by lia. reflexivity.
    + intros s Hr. destruct (Nat.lt_ge_cases s (seq_idx st1)) as [Hlt|Hge].
      * eapply complete_same; [|apply Hcomp1; lia]. apply Hoth'. exact Hlt.
      * apply Hcomp'. lia.
Qed.

Lemma process_batch_loaded (st : locals) (b : batch) (l : nat) :
  dirs !! seq_idx st = Some l ->
  process_batch st b =
  for_each process_item
    {| per_frame_error := per_frame_error st;
       seq_idx := seq_idx st;
       f_idx := f_idx st;
       fnames := l;
       anom_scores := anom_scores st;
       inspection_count := inspection_count st;
       saved := saved st |} b.
Proof.
  intros Hd. unfold Evaluator.process_batch.
  rewrite (getitem_Some _ _ _ Hd). reflexivity.
Qed.

(** The same for batches, when the [k] sequences of the run all have [l]
    frames: every batch finds the frame list of its first sequence to have
    [l] entries, which is right for all the sequences it reaches. *)
Lemma run_batches (t l s0 k : nat) :
  tvol = Z.of_nat t -> 1 <= t <= l -> s0 + k <= length dirs ->
  (forall s, s0 <= s < s0 + k -> dirs !! s = Some l) ->
  forall (bs : list batch) (st : locals),
    Forall (fun b : batch =>
              b <> [] /\ Forall (fun it : item => length it = t) b) bs ->
    s0 <= seq_idx st -> f_idx st <= l - t ->
    (f_idx st <> 0 -> mid_sequence l t st) ->
    length (per_frame_error st) = length dirs ->
    (seq_idx st - s0) * (l - t + 1) + f_idx st + length (concat bs)
      <= k * (l - t + 1) ->
    exists st', for_each process_batch st bs = Ok st' /\
      seq_idx st <= seq_idx st' /\ f_idx st' <= l - t /\
      (f_idx st' <> 0 -> mid_sequence l t st') /\
      length (per_frame_error st') = length dirs /\
      (seq_idx st' - s0) * (l - t + 1) + f_idx st' =
        (seq_idx st - s0) * (l - t + 1) + f_idx st + length (concat bs) /\
      (forall s, s < seq_idx st ->
         per_frame_error st' !! s = per_frame_error st !! s) /\
      (forall s, seq_idx st <= s < seq_idx st' -> complete l t st' s).
Proof.
  intros Ht Htl Hk Hd bs. induction bs as [|b bs IH];
    intros st Hbs Hs0 Hf Hmid Hlen Hpos.
  - exists st. simpl in *. split; [reflexivity|].
    do 4 (split; [auto|]). split; [lia|]. split; [auto|]. intros s Hs. lia.
  - apply Forall_cons in Hbs as [[Hne Hb] Hbs].
    simpl in Hpos. rewrite length_app in Hpos.
    assert (Hb1 : 1 <= length b) by (destruct b; [congruence | simpl; lia]).
    assert (Hsk : seq_idx st - s0 < k) by nia.
    rewrite for_each_cons, (process_batch_loaded st b l) by (apply Hd; lia).
    match goal with
    | |- context [for_each process_item ?s b] => set (st0 := s)
    end.
    destruct (run_items t l s0 k Ht Htl Hk b st0 Hb) as
      (st1 & H1 & Hn1 & Hle1 & Hf1 & Hmid1 & Hl1 & Hpos1 & Hoth1 & Hcomp1);
      try (subst st0; simpl; assumption || lia).
    rewrite H1. subst st0. simpl in *.
    destruct (IH st1) as
      (st' & H' & Hle' & Hf' & Hmid' & Hl' & Hpos' & Hoth' & Hcomp');
      try assumption; try lia.
    exists st'. split; [exact H'|]. split; [lia|].
    split; [exact Hf'|]. split; [exact Hmid'|]. split; [exact Hl'|].
    split; [rewrite length_app; lia|]. split.
    + intros s Hs. rewrite Hoth', Hoth1 by lia. reflexivity.
    + intros s Hr. destruct (Nat.lt_ge_cases s (seq_idx st1)) as [Hlt|Hge].
      * eapply complete_same; [|apply Hcomp1; lia]. apply Hoth'. exact Hlt.
      * apply Hcomp'. lia.
Qed.

(** *** Whole passes *)

Lemma run_end (a f n w : nat) :
  a * w + f = n * w -> f < w -> a = n /\ f = 0.
Proof.
  intros H Hf. destruct (Nat.lt_trichotomy a n) as [Hlt|[->|Hgt]].
  - assert ((a + 1) * w <= n * w) by (apply Nat.mul_le_mono_r; lia). lia.
  - lia.
  - assert ((n + 1) * w <= a * w) by (apply Nat.mul_le_mono_r; lia). lia.
Qed.


(** X2: when all the test sequences have the same number [l] of frames, the
    pass over all their windows returns however the windows are cut into
    non-empty batches: the loop ends at the marker with the cursor after the
    last sequence, and every sequence has its [l] cells, cell [k] holding
    one error per window that contains frame [k]. *)
Theorem equal_length_pass (n l t : nat) (source : nat -> option batch)
  (bs : list batch) (fuel : nat) :
  tvol = Z.of_nat t -> 1 <= t <= l -> dirs = replicate n l ->
  Forall (fun b : batch =>
            b <> [] /\ Forall (fun it : item => length it = t) b) bs ->
  length (concat bs) = n * (l - t + 1) ->
  (forall i b, bs !! i = Some b -> source i = Some b) ->
  source (length bs) = None -> length bs < fuel ->
  exists st',
    test_loop fuel source 0 (init E P dirs) = Some (Ok (st', length bs)) /\
    seq_idx st' = n /\ f_idx st' = 0 /\
    forall s, s < n -> complete l t st' s.
Proof.
  intros Ht Htl Hd Hbs Htot Hsrc Hend Hfuel.
  assert (Hlen : length dirs = n) by (rewrite Hd; apply length_replicate).
  destruct (run_batches t l 0 n Ht Htl) with (bs := bs) (st := init E P dirs)
    as (st' & H' & _ & Hf' & _ & _ & Hpos & _ & Hcomp);
    try assumption; simpl; try lia.
  { intros s Hs. rewrite Hd. apply lookup_replicate_2. lia. }
  { apply length_replicate. }
  simpl in Hpos, Hcomp.
  rewrite Nat.sub_0_r, Htot in Hpos.
  assert (Hsn : seq_idx st' = n /\ f_idx st' = 0)
    by (apply (run_end _ _ _ _ Hpos); lia).
  destruct Hsn as [Hs' Hf0].
  exists st'. split.
  - apply (test_loop_from source bs 0 fuel); assumption.
  - split; [exact Hs'|]. split; [exact Hf0|].
    intros s Hs. apply Hcomp. lia.
Qed.

Lemma groups_from (t : nat) :
  tvol = Z.of_nat t -> 1 <= t ->
  forall (todo : list nat) (groups : list (list batch)),
    Forall2 (fun (l : nat) (g : list batch) =>
               t <= l /\
               Forall (fun b : batch =>
                         b <> [] /\ Forall (fun it : item => length it = t) b) g /\
               length (concat g) = l - t + 1) todo groups ->
    forall (s0 : nat) (st : locals),
      (forall i l, todo !! i = Some l -> dirs !! (s0 + i) = Some l) ->
      s0 + length todo <= length dirs ->
      seq_idx st = s0 -> f_idx st = 0 ->
      length (per_frame_error st) = length dirs ->
      exists st', for_each process_batch st (concat groups) = Ok st' /\
        seq_idx st' = s0 + length todo /\ f_idx st' = 0 /\
        length (per_frame_error st') = length dirs /\
        (forall s, s < s0 ->
           per_frame_error st' !! s = per_frame_error st !! s) /\
        (forall i l, todo !! i = Some l -> complete l t st' (s0 + i)).
Proof.
  intros Ht Ht1 todo groups Hall.
  induction Hall as [|l g todo groups (Htl & Hg & Hlen) _ IH];
    intros s0 st Hd Hs0 Hseq Hf Hp.
  - exists st. simpl in *. split; [reflexivity|]. split; [lia|].
    do 3 (split; [auto|]). intros i l Hi. discriminate.
  - simpl in Hs0.
    destruct (run_batches t l s0 1 Ht) with (bs := g) (st := st)
      as (st1 & H1 & _ & Hf1 & _ & Hp1 & Hpos1 & Hoth1 & Hcomp1);
      try assumption; try lia.
    { intros s Hs. replace s with (s0 + 0) by lia. apply Hd. reflexivity. }
    assert (Hs1 : seq_idx st1 - s0 = 1 /\ f_idx st1 = 0).
    { apply (run_end _ _ _ (l - t + 1)); lia. }
    destruct Hs1 as [Hs1 Hf10].
    assert (Hs1' : seq_idx st1 = s0 + 1) by lia. clear Hs1.
    destruct (IH (s0 + 1) st1) as (st' & H' & Hs' & Hf' & Hp' & Hoth' & Hcomp');
      try assumption; try lia.
    { intros i l' Hi. replace (s0 + 1 + i) with (s0 + S i) by lia.
      apply Hd. exact Hi. }
    exists st'. simpl. rewrite for_each_app, H1. simpl.
    split; [exact H'|]. split; [lia|]. split; [exact Hf'|].
    split; [exact Hp'|]. split.
    + intros s Hs. rewrite Hoth', Hoth1 by lia. reflexivity.
    + intros [|i] l' Hi; simpl in Hi.
      * injection Hi as <-. rewrite Nat.add_0_r.
        eapply complete_same; [apply Hoth'; lia|]. apply Hcomp1. lia.
      * replace (s0 + S i) with (s0 + 1 + i) by lia. apply Hcomp'. exact Hi.
Qed.

(** X3: whatever the lengths of the test sequences, none shorter than the
    window, the pass returns when no batch holds windows of two sequences:
    group [i] of the batches cuts the windows of sequence [i] into
    non-empty batches.  Every sequence then has one cell per frame of its
    own, cell [k] holding one error per window that contains frame [k]. *)
Theorem batches_per_sequence_pass (t : nat) (groups : list (list batch))
  (source : nat -> option batch) (fuel : nat) :
  tvol = Z.of_nat t -> 1 <= t ->
  Forall2 (fun (l : nat) (g : list batch) =>
             t <= l /\
             Forall (fun b : batch =>
                       b <> [] /\ Forall (fun it : item => length it = t) b) g /\
             length (concat g) = l - t + 1) dirs groups ->
  (forall i b, concat groups !! i = Some b -> source i = Some b) ->
  source (length (concat groups)) = None ->
  length (concat groups) < fuel ->
  exists st',
    test_loop fuel source 0 (init E P dirs)
      = Some (Ok (st', length (concat groups))) /\
    seq_idx st' = length dirs /\ f_idx st' = 0 /\
    forall s l, dirs !! s = Some l -> complete l t st' s.
Proof.
  intros Ht Ht1 Hall Hsrc Hend Hfuel.
  destruct (groups_from t Ht Ht1 dirs groups Hall 0 (init E P dirs))
    as (st' & H' & Hs' & Hf' & _ & _ & Hcomp); simpl; try lia; try reflexivity.
  { auto. }
  { apply length_replicate. }
  exists st'. split.
  - apply (test_loop_from source (concat groups) 0 fuel); assumption.
  - split; [exact Hs'|]. split; [exact Hf'|]. exact Hcomp.
Qed.

(** *** Windows that run past the accumulators *)

Lemma record_position_overrun (st : locals) (j n : nat) (x : E * P) :
  shaped n st -> n <= f_idx st + j ->
  record_position st j x = Raise IndexError.
Proof.
  intros (_ & (c & Hc & Hcl) & (a & Ha & Hal)) Hk.
  unfold Evaluator.record_position. rewrite Ha, Hc.
  assert (Hna : getitem a (f_idx st + j) = Raise IndexError).
  { unfold getitem. rewrite lookup_ge_None_2 by lia. reflexivity. }
  assert (Hnc : getitem c (f_idx st + j) = Raise IndexError).
  { unfold getitem. rewrite lookup_ge_None_2 by lia. reflexivity. }
  destruct last; simpl.
  - rewrite Hna. reflexivity.
  - rewrite Hnc. reflexivity.
Qed.

Lemma record_window_overrun (it : item) (j : nat) (st : locals) (n : nat) :
  shaped n st -> f_idx st + j <= n < f_idx st + j + length it ->
  record_window st j it = Raise IndexError.
Proof.
  revert j st. induction it as [|x it IH]; intros j st Hsh Hb; simpl in *;
    [lia|].
  destruct (Nat.eq_dec (f_idx st + j) n) as [Heq|Hne].
  - rewrite (record_position_overrun st j n x Hsh) by lia. reflexivity.
  - destruct (record_position_returns st j n x Hsh) as [st1 H1]; [lia|].
    rewrite H1. simpl.
    pose proof (record_position_shaped _ _ _ _ _ H1 Hsh) as Hsh1.
    apply record_position_inv in H1 as (_ & Hf & _).
    apply IH; [exact Hsh1 | lia].
Qed.

(** X4: a batch that starts a sequence with fewer frames than its first window
    has positions ends the pass with an [IndexError], whatever else the
    batch holds: the window runs past the arrays just allocated (or
    [fnames[0]] does not exist). *)
Theorem short_sequence_raises (st : locals) (it : item) (b : batch) (l : nat) :
  f_idx st = 0 -> dirs !! seq_idx st = Some l -> l < length it ->
  process_batch st (it :: b) = Raise IndexError.
Proof.
  intros Hf Hd Hl. rewrite (process_batch_loaded st (it :: b) l Hd).
  match goal with
  | |- for_each _ ?s _ = _ => set (st0 := s)
  end.
  rewrite for_each_cons. unfold Evaluator.process_item.
  destruct (allocate st0) as [st1|e] eqn:H1.
  - pose proof (allocate_cursor _ _ H1) as (Hs1 & _).
    apply (allocate_fresh st0 st1 Hf) in H1
      as (_ & Hf1 & _ & _ & _ & Hlen & Hp & Ha & Hc).
    subst st0. simpl in *.
    assert (Hsh : shaped l st1).
    { split; [|split].
      - exists (replicate l []). rewrite Hs1, Hp. split.
        + apply list_lookup_insert_eq. exact Hlen.
        + apply length_replicate.
      - exists (replicate l 0%Z). split; [exact Hc | apply length_replicate].
      - exists (replicate l pzero). split; [exact Ha | apply length_replicate]. }
    rewrite (record_window_overrun it 0 st1 l Hsh) by lia. reflexivity.
  - simpl. f_equal. unfold Evaluator.allocate in H1. subst st0. simpl in H1.
    rewrite Hf in H1. simpl in H1.
    destruct (per_frame_error st !! seq_idx st) as [s|] eqn:Hs.
    + rewrite (getitem_Some _ _ _ Hs) in H1. simpl in H1.
      destruct (l =? 0); [|discriminate]. simpl in H1. congruence.
    + unfold getitem in H1. rewrite Hs in H1. simpl in H1. congruence.
Qed.

(** *** What holds at every sequence boundary *)

(** X5: in any pass, with any batches: inside a sequence every error cell of
    the sequence holds as many errors as the inspection count of its frame
    says, and when the cursor leaves a sequence every cell of that sequence
    is non-empty, so that the mean of line 97 is taken over at least one
    error for each of its frames. *)
Theorem cells_match_counts :
  (forall (st st' : locals) (it : item),
     process_item st it = Ok st' ->
     (f_idx st <> 0 -> aligned st) ->
     (f_idx st' <> 0 -> aligned st') /\
     (f_idx st' = 0 ->
        exists slots c, per_frame_error st' !! seq_idx st = Some slots /\
          inspection_count st' = Some c /\
          c = (fun cell : list E => Z.of_nat (length cell)) <$> slots /\
          Forall (fun cell : list E => cell <> []) slots)) /\
  (forall (st st' : locals) (b : batch),
     process_batch st b = Ok st' ->
     (f_idx st <> 0 -> aligned st) -> (f_idx st' <> 0 -> aligned st')) /\
  (forall (st st' : locals) (bs : list batch),
     for_each process_batch st bs = Ok st' ->
     (f_idx st <> 0 -> aligned st) -> (f_idx st' <> 0 -> aligned st')).
Proof.
  assert (Hitem : forall (st st' : locals) (it : item),
     process_item st it = Ok st' ->
     (f_idx st <> 0 -> aligned st) ->
     (f_idx st' <> 0 -> aligned st') /\
     (f_idx st' = 0 ->
        exists slots c, per_frame_error st' !! seq_idx st = Some slots /\
          inspection_count st' = Some c /\
          c = (fun cell : list E => Z.of_nat (length cell)) <$> slots /\
          Forall (fun cell : list E => cell <> []) slots)).
  { intros st st' it H Hinv.
    destruct (process_item_inv _ _ _ H) as (st1 & st2 & H1 & H2 & H3).
    assert (Hal1 : aligned st1).
    { destruct (Nat.eq_dec (f_idx st) 0) as [Hf|Hf].
      - pose proof (allocate_cursor _ _ H1) as (Hs1 & _).
        apply (allocate_fresh _ _ Hf) in H1
          as (_ & _ & _ & _ & _ & Hlen & Hp & _ & Hc).
        exists (replicate (fnames st) []), (replicate (fnames st) 0%Z).
        split; [|split; [exact Hc|]].
        + rewrite Hs1, Hp. apply list_lookup_insert_eq. exact Hlen.
        + rewrite fmap_replicate. reflexivity.
      - rewrite (allocate_skip _ Hf) in H1. injection H1 as <-. exact (Hinv Hf). }
    pose proof (allocate_cursor _ _ H1) as (Hs1 & _).
    pose proof (record_window_cursor _ _ _ _ H2) as (Hs2 & _).
    pose proof (record_window_aligned _ _ _ _ H2 Hal1) as Hal2.
    apply advance_inv in H3 as (Hp3 & Hc3 & _ & Hcur).
    destruct (Z.of_nat (f_idx st2) <? Z.of_nat (fnames st2) - tvol)%Z.
    - destruct Hcur as (Hs3 & Hf3 & _). split; [|lia].
      intros _. exact (aligned_same _ _ Hp3 Hs3 Hc3 Hal2).
    - destruct Hcur as (Hs3 & Hf3 & c & Hc & Hpos). split; [lia|].
      intros _. destruct Hal2 as (slots & c' & Hslots & Hc' & Heq).
      rewrite Hc in Hc'. injection Hc' as <-.
      exists slots, c. rewrite Hp3, Hc3, <- Hs1, <- Hs2.
      split; [exact Hslots|]. split; [exact Hc|]. split; [exact Heq|].
      apply Forall_forall. intros cell Hin.
      apply list_elem_of_lookup in Hin as [k Hk].
      assert (Hck : c !! k = Some (Z.of_nat (length cell)))
        by (rewrite Heq, list_lookup_fmap, Hk; reflexivity).
      pose proof (Forall_lookup_1 _ _ _ _ Hpos Hck) as Hlt. simpl in Hlt.
      destruct cell; [simpl in Hlt; lia | discriminate]. }
  assert (Hitems : forall (b : batch) (st st' : locals),
     for_each process_item st b = Ok st' ->
     (f_idx st <> 0 -> aligned st) -> (f_idx st' <> 0 -> aligned st')).
  { induction b as [|it b IH]; intros st st' H Hinv; simpl in H.
    - injection H as <-. exact Hinv.
    - destruct (process_item st it) as [st1|] eqn:H1; [|discriminate].
      simpl in H. apply (IH _ _ H). apply (Hitem _ _ _ H1 Hinv). }
  assert (Hbatch : forall (st st' : locals) (b : batch),
     process_batch st b = Ok st' ->
     (f_idx st <> 0 -> aligned st) -> (f_idx st' <> 0 -> aligned st')).
  { intros st st' b H Hinv. unfold Evaluator.process_batch in H.
    destruct (getitem dirs (seq_idx st)) as [fn|]; [|discriminate].
    simpl in H. apply (Hitems _ _ _ H). exact Hinv. }
  split; [exact Hitem|]. split; [exact Hbatch|].
  intros st st' bs. revert st. induction bs as [|b bs IH]; intros st H Hinv;
    simpl in H.
  - injection H as <-. exact Hinv.
  - destruct (process_batch st b) as [st1|] eqn:H1; [|discriminate].
    simpl in H. apply (IH _ H). apply (Hbatch _ _ _ H1 Hinv).
Qed.

(** *** A pass with [last] and a pass without *)

Local Abbreviation both_allocated := (fun a b : locals =>
  per_frame_error a = per_frame_error b /\ seq_idx a = seq_idx b /\
  f_idx a = f_idx b /\ fnames a = fnames b /\
  exists xa xb c, anom_scores a = Some xa /\ anom_scores b = Some xb /\
    inspection_count a = Some c /\ inspection_count b = Some c /\
    length xa = length c /\ length xb = length c).

Lemma allocate_agree (a b : locals) :
  same_errors a b -> agree both_allocated (allocate a) (allocate b).
Proof.
  intros (Hp & Hs & Hf & Hn & Hc & Hal). unfold Evaluator.allocate.
  rewrite <- Hf, <- Hp, <- Hs, <- Hn.
  destruct (Nat.eqb_spec (f_idx a) 0) as [H0|H0].
  - destruct (getitem (per_frame_error a) (seq_idx a)); simpl; [|reflexivity].
    destruct (fnames a =? 0); simpl; [reflexivity|].
    do 4 (split; [congruence|]).
    exists (replicate (fnames a) pzero), (replicate (fnames a) pzero),
           (replicate (fnames a) 0%Z).
    rewrite !length_replicate. repeat split; reflexivity.
  - simpl. do 4 (split; [assumption|]).
    destruct (Hal H0) as (xa & xb & c & Ha & Hb & Hca & Hla & Hlb).
    exists xa, xb, c. rewrite <- Hc. repeat split; assumption.
Qed.

Lemma record_position_agree (a b : locals) (j : nat) (x : E * P) :
  both_allocated a b ->
  agree both_allocated
    (Evaluator.record_position E P padd true a j x)
    (Evaluator.record_position E P padd false b j x).
Proof.
  intros (Hp & Hs & Hf & Hn & xa & xb & c & Ha & Hb & Hca & Hcb & Hla & Hlb).
  unfold Evaluator.record_position.
  rewrite Ha, Hca, Hcb, <- Hp, <- Hs, <- Hf, <- Hn. simpl.
  destruct (Nat.lt_ge_cases (f_idx a + j) (length c)) as [Hk|Hk].
  - destruct (lookup_lt_is_Some_2 xa (f_idx a + j)) as [p Hpx]; [lia|].
    destruct (lookup_lt_is_Some_2 c (f_idx a + j)) as [n Hnc]; [lia|].
    rewrite (getitem_Some _ _ _ Hpx), (getitem_Some _ _ _ Hnc). simpl.
    destruct (getitem (per_frame_error a) (seq_idx a)) as [slots|]; simpl;
      [|reflexivity].
    destruct (getitem slots (f_idx a + j)) as [cell|]; simpl; [|reflexivity].
    do 4 (split; [reflexivity|]).
    eexists _, _, _. rewrite Hb.
    do 4 (split; [reflexivity|]). rewrite !length_insert. split; assumption.
  - assert (Hxa : getitem xa (f_idx a + j) = Raise IndexError)
      by (unfold getitem; rewrite lookup_ge_None_2 by lia; reflexivity).
    assert (Hxc : getitem c (f_idx a + j) = Raise IndexError)
      by (unfold getitem; rewrite lookup_ge_None_2 by lia; reflexivity).
    rewrite Hxa, Hxc. reflexivity.
Qed.

Lemma record_window_agree (it : item) (j : nat) (a b : locals) :
  both_allocated a b ->
  agree both_allocated
    (Evaluator.record_window E P padd true a j it)
    (Evaluator.record_window E P padd false b j it).
Proof.
  revert j a b. induction it as [|x it IH]; intros j a b H; simpl.
  - exact H.
  - apply (agree_bind both_allocated both_allocated).
    + apply record_position_agree. exact H.
    + intros a' b' H'. apply IH. exact H'.
Qed.

Lemma advance_agree (a b : locals) :
  both_allocated a b ->
  agree same_errors
    (Evaluator.advance E P pdiv np_resize dirs tvol true a)
    (Evaluator.advance E P pdiv np_resize dirs tvol false b).
Proof.
  intros (Hp & Hs & Hf & Hn & xa & xb & c & Ha & Hb & Hca & Hcb & Hla & Hlb).
  unfold Evaluator.advance. rewrite <- Hf, <- Hn, <- Hs, Hca, Hcb.
  destruct (Z.of_nat (f_idx a) <? Z.of_nat (fnames a) - tvol)%Z; simpl.
  - unfold same_errors. simpl.
    do 5 (split; [congruence|]). intros _. exists xa, xb, c.
    repeat split; assumption.
  - destruct (if length dirs <? seq_idx a + 1 then _ else _) as [fn|]; simpl;
      [|reflexivity].
    destruct (forallb _ c); simpl; [|reflexivity].
    unfold Evaluator.save_scores. simpl. rewrite Ha. simpl.
    unfold same_errors. simpl.
    do 5 (split; [congruence|]). intros H0. contradiction.
Qed.

Lemma process_item_agree (a b : locals) (it : item) :
  same_errors a b ->
  agree same_errors
    (Evaluator.process_item E P pzero padd pdiv np_resize dirs tvol true a it)
    (Evaluator.process_item E P pzero padd pdiv np_resize dirs tvol false b it).
Proof.
  intros H. unfold Evaluator.process_item.
  apply (agree_bind both_allocated same_errors); [apply allocate_agree, H|].
  intros a1 b1 H1.
  apply (agree_bind both_allocated same_errors);
    [apply record_window_agree, H1|].
  intros a2 b2 H2. apply advance_agree, H2.
Qed.

Lemma process_batch_agree (a b : locals) (bt : batch) :
  same_errors a b ->
  agree same_errors
    (Evaluator.process_batch E P pzero padd pdiv np_resize dirs tvol true a bt)
    (Evaluator.process_batch E P pzero padd pdiv np_resize dirs tvol false b bt).
Proof.
  intros (Hp & Hs & Hf & Hn & Hc & Hal). unfold Evaluator.process_batch.
  rewrite <- Hs. destruct (getitem dirs (seq_idx a)) as [fn|]; simpl;
    [|reflexivity].
  apply for_each_agree.
  - intros a' b' x. apply process_item_agree.
  - repeat split; simpl; assumption.
Qed.

Lemma test_loop_agree (source : nat -> option batch) (fuel : nat) :
  forall (k : nat) (a b : locals),
    same_errors a b ->
    match
      Evaluator.test_loop E P pzero padd pdiv np_resize dirs tvol true
        fuel source k a,
      Evaluator.test_loop E P pzero padd pdiv np_resize dirs tvol false
        fuel source k b
    with
    | Some x, Some y =>
        agree (fun p q => same_errors p.1 q.1 /\ p.2 = q.2) x y
    | None, None => True
    | _, _ => False
    end.
Proof.
  induction fuel as [|fuel IH]; intros k a b H; simpl; [exact I|].
  destruct (source k) as [bt|]; [|simpl; auto].
  pose proof (process_batch_agree a b bt H) as Hb.
  destruct (Evaluator.process_batch E P pzero padd pdiv np_resize dirs tvol
              true a bt) as [a'|e],
           (Evaluator.process_batch E P pzero padd pdiv np_resize dirs tvol
              false b bt) as [b'|e']; simpl in Hb; try contradiction.
  - apply IH. exact Hb.
  - exact Hb.
Qed.

(** X6: the flag [last] does not change what a pass records about the errors:
    over the same test set and the same batches, the pass with [last] and
    the pass without end alike, both out of fuel, both with the same
    exception, or both at the marker after the same number of batches with
    the same error accumulators, the same inspection counts and the same
    cursor. *)
Theorem last_leaves_errors_alone (source : nat -> option batch) (fuel : nat) :
  match
    Evaluator.test_loop E P pzero padd pdiv np_resize dirs tvol true
      fuel source 0 (init E P dirs),
    Evaluator.test_loop E P pzero padd pdiv np_resize dirs tvol false
      fuel source 0 (init E P dirs)
  with
  | Some (Ok (a, n)), Some (Ok (b, m)) =>
      n = m /\ per_frame_error a = per_frame_error b /\
      inspection_count a = inspection_count b /\
      seq_idx a = seq_idx b /\ f_idx a = f_idx b
  | Some (Raise e), Some (Raise e') => e = e'
  | None, None => True
  | _, _ => False
  end.
Proof.
  assert (H0 : same_errors (init E P dirs) (init E P dirs)).
  { repeat split; try reflexivity. simpl. intros H. contradiction. }
  pose proof (test_loop_agree source fuel 0 _ _ H0) as H.
  destruct (Evaluator.test_loop E P pzero padd pdiv np_resize dirs tvol true
              fuel source 0 (init E P dirs)) as [[[a n]|e]|],
           (Evaluator.test_loop E P pzero padd pdiv np_resize dirs tvol false
              fuel source 0 (init E P dirs)) as [[[b m]|e']|];
    simpl in H; try contradiction; try exact H; try exact I.
  destruct H as ((Hp & Hs & Hf & _ & Hc & _) & Hn). simpl in *. auto.
Qed.

(** X7: one batch more than the test set holds: when the sequences all have
    [l] frames and the data source hands out all their windows and then
    another batch, even an empty one, before the marker, the pass ends
    with the [IndexError] of [dirs[seq_idx]] on line 59. *)
Theorem surplus_batch_raises (n l t : nat) (source : nat -> option batch)
  (bs : list batch) (b : batch) (fuel : nat) :
  tvol = Z.of_nat t -> 1 <= t <= l -> dirs = replicate n l ->
  Forall (fun b : batch =>
            b <> [] /\ Forall (fun it : item => length it = t) b) bs ->
  length (concat bs) = n * (l - t + 1) ->
  (forall i b', (bs ++ [b]) !! i = Some b' -> source i = Some b') ->
  length bs < fuel ->
  test_loop fuel source 0 (init E P dirs) = Some (Raise IndexError).
Proof.
  intros Ht Htl Hd Hbs Htot Hsrc Hfuel.
  assert (Hlen : length dirs = n) by (rewrite Hd; apply length_replicate).
  destruct (run_batches t l 0 n Ht Htl) with (bs := bs) (st := init E P dirs)
    as (st' & H' & _ & Hf' & _ & _ & Hpos & _ & _);
    try assumption; simpl; try lia.
  { intros s Hs. rewrite Hd. apply lookup_replicate_2. lia. }
  { apply length_replicate. }
  simpl in Hpos. rewrite Nat.sub_0_r, Htot in Hpos.
  assert (Hsn : seq_idx st' = n /\ f_idx st' = 0)
    by (apply (run_end _ _ _ _ Hpos); lia).
  destruct Hsn as [Hs' _].
  apply (test_loop_raises source (bs ++ [b]) 0 fuel).
  - exact Hsrc.
  - rewrite for_each_app, H'. simpl. unfold Evaluator.process_batch.
    assert (Hx : getitem dirs (seq_idx st') = Raise IndexError)
      by (unfold getitem; rewrite lookup_ge_None_2 by lia; reflexivity).
    rewrite Hx. reflexivity.
  - rewrite length_app. simpl. lia.
Qed.

End Pass.

(** *** Concrete passes *)

(** A sequence of 6 frames with windows of 4 frames, in a pass with
    [last]. *)
Lemma sequence_pass_example :
  exists st',
    for_each (sample_item [6] 4 true) (first_batch [6] 6)
      (replicate 3 (unit_window 4)) = Ok st' /\
    seq_idx st' = 1 /\ f_idx st' = 0 /\
    (exists slots, per_frame_error st' !! 0 = Some slots /\ length slots = 6) /\
    exists c, inspection_count st' = Some c /\ length c = 6 /\
      Forall (fun n => (1 <= n <= 4)%Z) c /\ sum_counts c = 12%Z.
Proof.
  apply (sequence_pass Q Q 0%Q Qplus (fun p n => p / inject_Z n)%Q (fun a => a)
           [6] 4%Z true 4 6 (replicate 3 (unit_window 4)) (first_batch [6] 6));
    try reflexivity; simpl; try lia.
  repeat constructor.
Defined.

(** C1 on the code.  Two test sequences of 5 and 7 frames, windows of 3
    frames, batches of 2 windows: the second batch holds the last window of
    the first sequence and the first window of the second.  The frame list
    is not loaded again at the transition, so the second sequence gets 5
    accumulator slots and 5 inspection counts instead of 7, and the pass
    ends with an [IndexError] at the first window that reaches frame 5.
    With one batch per sequence the same data gives 7 slots, counts between
    1 and 3, and the sum [(7 - 3 + 1) * 3]. *)
Theorem second_sequence_sized_by_first :
  (exists st,
     for_each (sample_batch [5; 7] 3 false) (init Q Q [5; 7]) (batches 2 2 3)
       = Ok st /\
     seq_idx st = 1 /\ f_idx st = 1 /\
     length <$> per_frame_error st !! 1 = Some 5 /\
     length <$> inspection_count st = Some 5) /\
  sample_loop [5; 7] 3 false 5 (source_of (batches 4 2 3)) 0 (init Q Q [5; 7])
    = Some (Raise IndexError) /\
  (exists st,
     sample_loop [5; 7] 3 false 3
       (source_of [replicate 3 (unit_window 3); replicate 5 (unit_window 3)])
       0 (init Q Q [5; 7]) = Some (Ok (st, 2)) /\
     length <$> per_frame_error st !! 1 = Some 7 /\
     inspection_count st = Some [1; 2; 3; 3; 3; 2; 1]%Z /\
     sum_counts [1; 2; 3; 3; 3; 2; 1]%Z = ((7 - 3 + 1) * 3)%Z).
Proof.
  split; [|split].
  - eexists. split; [vm_compute; reflexivity|]. vm_compute. auto.
  - vm_compute. reflexivity.
  - eexists. split; [vm_compute; reflexivity|]. vm_compute. auto.
Qed.

(** C2 on the code.  Two test sequences of 7 and 5 frames, windows of 3
    frames, batches of 2 windows, all 5 + 3 windows supplied and then the
    end marker: the second sequence is given the 7 inspection counts of the
    first, the last two are never incremented, and the assertion at the end
    of the second sequence fails, with [last] or without.  With one batch
    per sequence the same data passes the assertion. *)
Theorem assertion_fails_on_covered_sequence :
  sample_loop [7; 5] 3 false 5 (source_of (batches 4 2 3)) 0 (init Q Q [7; 5])
    = Some (Raise AssertionError) /\
  sample_loop [7; 5] 3 true 5 (source_of (batches 4 2 3)) 0 (init Q Q [7; 5])
    = Some (Raise AssertionError) /\
  (exists st,
     for_each (sample_batch [7; 5] 3 false) (init Q Q [7; 5]) (batches 3 2 3)
       = Ok st /\
     seq_idx st = 1 /\ f_idx st = 1 /\
     inspection_count st = Some [1; 1; 1; 0; 0; 0; 0]%Z) /\
  (exists st,
     sample_loop [7; 5] 3 false 3
       (source_of [replicate 5 (unit_window 3); replicate 3 (unit_window 3)])
       0 (init Q Q [7; 5]) = Some (Ok (st, 2)) /\
     inspection_count st = Some [1; 2; 3; 2; 1]%Z).
Proof.
  split; [|split; [|split]].
  - vm_compute. reflexivity.
  - vm_compute. reflexivity.
  - eexists. split; [vm_compute; reflexivity|]. vm_compute. auto.
  - eexists. split; [vm_compute; reflexivity|]. vm_compute. auto.
Qed.

(** The claim of C3 fails at the last window of a sequence: with 5 frames
    and windows of 3, at [f_idx = 2 <= 5 - 3] the cursor does not move to
    frame 3 but to frame 0 of the next sequence. *)
Lemma cursor_leaves_at_last_offset :
  exists st st',
    for_each (sample_item [5] 3 false) (first_batch [5] 5)
      [unit_window 3; unit_window 3] = Ok st /\
    f_idx st = 2 /\ fnames st = 5 /\
    (Z.of_nat (f_idx st) <= Z.of_nat (fnames st) - 3)%Z /\
    sample_item [5] 3 false st (unit_window 3) = Ok st' /\
    seq_idx st' = 1 /\ f_idx st' = 0 /\ f_idx st' <> f_idx st + 1.
Proof.
  eexists. eexists. split; [vm_compute; reflexivity|].
  split; [reflexivity|]. split; [reflexivity|]. split; [simpl; lia|].
  split; [vm_compute; reflexivity|].
  split; [reflexivity|]. split; [reflexivity|]. simpl. lia.
Qed.

(** Two sequences of 3 frames and windows of 3: the first item is the only
    window of the first sequence. *)
Lemma cursor_rule_witness :
  exists st1,
    sample_item [3; 3] 3 false (first_batch [3; 3] 3) (unit_window 3) = Ok st1 /\
    seq_idx st1 = 1 /\ f_idx st1 = 0.
Proof.
  assert (H1 : sample_item [3; 3] 3 false (first_batch [3; 3] 3) (unit_window 3)
               = Ok {| per_frame_error := [[[1]; [1]; [1]]; []]%Q;
                       seq_idx := 1; f_idx := 0; fnames := 3;
                       anom_scores := Some [0; 0; 0]%Q;
                       inspection_count := Some [1; 1; 1]%Z;
                       saved := [] |})
    by (vm_compute; reflexivity).
  eexists. split; [exact H1|].
  destruct (cursor_rule Q Q 0%Q Qplus (fun p n => p / inject_Z n)%Q (fun a => a)
              [3; 3] 3%Z false (first_batch [3; 3] 3) _ (unit_window 3) 3
              eq_refl eq_refl H1) as (_ & _ & Hb).
  destruct Hb as (Hs & Hf & _); [simpl; lia|]. split; assumption.
Defined.

(** The claim of C9 fails on a pass without [last]: after the first window
    of a sequence of 5 frames the anomaly-score array and the
    inspection-count array are allocated, and the counts of the three
    frames of the window are 1. *)
Lemma arrays_allocated_without_last :
  exists st,
    sample_batch [5] 3 false (init Q Q [5]) [unit_window 3] = Ok st /\
    anom_scores st = Some [0; 0; 0; 0; 0]%Q /\
    inspection_count st = Some [1; 1; 1; 0; 0]%Z.
Proof.
  eexists. split; [vm_compute; reflexivity|]. split; reflexivity.
Qed.

Lemma accumulators_regardless_of_last_witness :
  exists st' st1 st2,
    sample_item [5] 3 false (first_batch [5] 5) (unit_window 3) = Ok st' /\
    allocate Q Q 0%Q (first_batch [5] 5) = Ok st1 /\
    record_window Q Q Qplus false st1 0 (unit_window 3) = Ok st2 /\
    inspection_count st1 = Some [0; 0; 0; 0; 0]%Z /\
    anom_scores st' = anom_scores st1.
Proof.
  assert (H : sample_item [5] 3 false (first_batch [5] 5) (unit_window 3)
              = Ok {| per_frame_error := [[[1]; [1]; [1]; []; []]]%Q;
                      seq_idx := 0; f_idx := 1; fnames := 5;
                      anom_scores := Some [0; 0; 0; 0; 0]%Q;
                      inspection_count := Some [1; 1; 1; 0; 0]%Z;
                      saved := [] |})
    by (vm_compute; reflexivity).
  destruct (accumulators_regardless_of_last Q Q 0%Q Qplus
              (fun p n => p / inject_Z n)%Q (fun a => a) [5] 3%Z false _ _ _ H)
    as (st1 & st2 & Ha & Hw & _ & Hz & _ & _ & Hs & _).
  eexists. exists st1, st2. split; [exact H|].
  split; [exact Ha|]. split; [exact Hw|].
  split; [apply Hz; reflexivity | exact Hs].
Defined.


(** Two sequences of 5 frames, windows of 3, the 6 windows in three
    batches of 2: the second batch holds windows of both sequences. *)
Lemma equal_length_pass_witness :
  exists st',
    sample_loop [5; 5] 3 false 4 (source_of (batches 3 2 3)) 0 (init Q Q [5; 5])
      = Some (Ok (st', 3)) /\
    seq_idx st' = 2 /\ f_idx st' = 0 /\
    forall s, s < 2 -> complete 5 3 st' s.
Proof.
  apply (equal_length_pass Q Q 0%Q Qplus (fun p n => p / inject_Z n)%Q
           (fun a => a) [5; 5] 3%Z false 2 5 3
           (source_of (batches 3 2 3)) (batches 3 2 3) 4).
  - reflexivity.
  - lia.
  - reflexivity.
  - repeat (constructor; [split; [discriminate | repeat constructor]|]).
    constructor.
  - reflexivity.
  - intros i b H. exact H.
  - reflexivity.
  - simpl. lia.
Defined.

(** Sequences of 5 and 7 frames, windows of 3: one batch for the 3 windows
    of the first, two batches for the 5 windows of the second. *)
Lemma batches_per_sequence_pass_witness :
  exists st',
    sample_loop [5; 7] 3 false 4
      (source_of [replicate 3 (unit_window 3); replicate 2 (unit_window 3);
                  replicate 3 (unit_window 3)])
      0 (init Q Q [5; 7]) = Some (Ok (st', 3)) /\
    seq_idx st' = 2 /\ f_idx st' = 0 /\
    forall s l, [5; 7] !! s = Some l -> complete l 3 st' s.
Proof.
  apply (batches_per_sequence_pass Q Q 0%Q Qplus (fun p n => p / inject_Z n)%Q
           (fun a => a) [5; 7] 3%Z false 3
           [[replicate 3 (unit_window 3)];
            [replicate 2 (unit_window 3); replicate 3 (unit_window 3)]]
           (source_of [replicate 3 (unit_window 3); replicate 2 (unit_window 3);
                       replicate 3 (unit_window 3)]) 4).
  - reflexivity.
  - lia.
  - repeat (constructor;
            [split; [lia|]; split; [|reflexivity];
             repeat (constructor; [split; [discriminate | repeat constructor]|]);
             constructor|]).
    constructor.
  - intros i b H. exact H.
  - reflexivity.
  - simpl. lia.
Defined.

(** A sequence of 2 frames and windows of 3. *)
Lemma short_sequence_raises_witness :
  sample_batch [2] 3 false (init Q Q [2]) [unit_window 3] = Raise IndexError.
Proof.
  apply (short_sequence_raises Q Q 0%Q Qplus (fun p n => p / inject_Z n)%Q
           (fun a => a) [2] 3%Z false (init Q Q [2]) (unit_window 3) [] 2).
  - reflexivity.
  - reflexivity.
  - simpl. lia.
Defined.

(** Two sequences of 5 frames in three batches of 2 windows, and then an
    empty batch. *)
Lemma surplus_batch_raises_witness :
  sample_loop [5; 5] 3 false 4 (source_of (batches 3 2 3 ++ [[]])) 0
    (init Q Q [5; 5]) = Some (Raise IndexError).
Proof.
  apply (surplus_batch_raises Q Q 0%Q Qplus (fun p n => p / inject_Z n)%Q
           (fun a => a) [5; 5] 3%Z false 2 5 3
           (source_of (batches 3 2 3 ++ [[]])) (batches 3 2 3) [] 4).
  - reflexivity.
  - lia.
  - reflexivity.
  - repeat (constructor; [split; [discriminate | repeat constructor]|]).
    constructor.
  - reflexivity.
  - intros i b H. exact H.
  - simpl. lia.
Defined.

(** The batches of the pass in which the assertion of line 80 fails. *)
Lemma test_loop_raises_example :
  sample_loop [7; 5] 3 false 4 (source_of (batches 4 2 3)) 0 (init Q Q [7; 5])
    = Some (Raise AssertionError).
Proof.
  apply (test_loop_raises Q Q 0%Q Qplus (fun p n => p / inject_Z n)%Q
           (fun a => a) [7; 5] 3%Z false
           (source_of (batches 4 2 3)) (batches 4 2 3) 0 4).
  - intros i b H. exact H.
  - vm_compute. reflexivity.
  - simpl. lia.
Defined.

End EvaluatorFacts.

(** ** The labels and the validation loss *)

Module LabelsFacts.

Import Scorer Labels.

Lemma frame_labels_length (gt : list Z) (n : nat) :
  length (frame_labels gt n) = n.
Proof. unfold frame_labels. rewrite length_map, length_seq. reflexivity. Qed.

Lemma frame_labels_binary (gt : list Z) (n : nat) :
  Forall (fun l => l = 0%Z \/ l = 1%Z) (frame_labels gt n).
Proof.
  unfold frame_labels. apply Forall_forall. intros l Hl.
  apply list_elem_of_In, in_map_iff in Hl as (j & <- & _).
  destruct (existsb _ gt); auto.
Qed.

Section Sequences.

Variable A : Type.

Local Abbreviation labels_of := (fun (gt : list Z) (sc : list A) =>
  frame_labels gt (length sc)).

Lemma make_labels_from (frame_gt : list (list Z)) (scores : list (list A)) :
  forall (n a : nat) (labels : list Z),
    a + n = length frame_gt -> a + n <= length scores ->
    for_each
      (fun labels i =>
         sc ← getitem scores i;
         gt ← getitem frame_gt i;
         Ok (labels ++ frame_labels gt (length sc)))
      labels (seq a n)
    = Ok (labels ++
          concat (zip_with labels_of (drop a frame_gt) (drop a scores))).
Proof.
  induction n as [|n IH]; intros a labels Hg Hs; simpl.
  - rewrite (drop_ge frame_gt) by lia. simpl. rewrite app_nil_r. reflexivity.
  - destruct (lookup_lt_is_Some_2 frame_gt a) as [gt Hgt]; [lia|].
    destruct (lookup_lt_is_Some_2 scores a) as [sc Hsc]; [lia|].
    rewrite (getitem_Some _ _ _ Hsc). simpl.
    rewrite (getitem_Some _ _ _ Hgt). simpl.
    rewrite IH by lia.
    rewrite (drop_S frame_gt gt a Hgt), (drop_S scores sc a Hsc). simpl.
    rewrite <- app_assoc. reflexivity.
Qed.

Lemma make_labels_overrun (frame_gt : list (list Z)) (scores : list (list A)) :
  forall (n a : nat) (labels : list Z),
    a + n = length frame_gt -> a <= length scores < a + n ->
    for_each
      (fun labels i =>
         sc ← getitem scores i;
         gt ← getitem frame_gt i;
         Ok (labels ++ frame_labels gt (length sc)))
      labels (seq a n)
    = Raise IndexError.
Proof.
  induction n as [|n IH]; intros a labels Hg Hs; simpl; [lia|].
  destruct (Nat.eq_dec a (length scores)) as [Ha|Ha].
  - assert (Hx : getitem scores a = Raise IndexError)
      by (unfold getitem; rewrite lookup_ge_None_2 by lia; reflexivity).
    rewrite Hx. reflexivity.
  - destruct (lookup_lt_is_Some_2 frame_gt a) as [gt Hgt]; [lia|].
    destruct (lookup_lt_is_Some_2 scores a) as [sc Hsc]; [lia|].
    rewrite (getitem_Some _ _ _ Hsc). simpl.
    rewrite (getitem_Some _ _ _ Hgt). simpl.
    apply IH; lia.
Qed.

Lemma labels_of_all (gts : list (list Z)) :
  forall scs : list (list A),
    Forall (fun l => l = 0%Z \/ l = 1%Z) (concat (zip_with labels_of gts scs)) /\
    (length gts = length scs ->
     length (concat (zip_with labels_of gts scs)) = length (concat scs)).
Proof.
  induction gts as [|gt gts IH]; intros [|sc scs]; simpl;
    try (split; [constructor | intros; try reflexivity; discriminate]).
  destruct (IH scs) as [Hb Hl]. split.
  - apply Forall_app. split; [apply frame_labels_binary | exact Hb].
  - intros [= Hlen]. rewrite !length_app, frame_labels_length, (Hl Hlen).
    reflexivity.
Qed.

(** X12: the labels of lines 102-105.  When the ground truth has no more
    entries than there are sequences, the loop returns the labels of the
    sequences that have a ground truth, each 0 or 1, sequence after
    sequence, one per frame; with a ground truth for every sequence there
    are as many labels as concatenated scores.  When the ground truth has
    more entries than there are sequences, the loop ends with the
    [IndexError] of [abnorm_scores[i]]. *)
Theorem make_labels_result (frame_gt : list (list Z)) (scores : list (list A)) :
  (length frame_gt <= length scores ->
   exists labels, make_labels frame_gt scores = Ok labels /\
     labels = concat (zip_with labels_of frame_gt scores) /\
     Forall (fun l => l = 0%Z \/ l = 1%Z) labels /\
     (length frame_gt = length scores ->
      length labels = length (concat scores))) /\
  (length scores < length frame_gt ->
   make_labels frame_gt scores = Raise IndexError).
Proof.
  split.
  - intros Hle. eexists. split.
    + unfold make_labels. rewrite (make_labels_from frame_gt scores) by lia.
      simpl. rewrite !drop_0. reflexivity.
    + split; [reflexivity|]. apply labels_of_all.
  - intros Hlt. unfold make_labels. apply make_labels_overrun; lia.
Qed.

End Sequences.

(** X13: the labels of a sequence depend on its ground truth only through the
    frames of the sequence that are listed in it: listed indices that are
    not frames of the sequence, repetitions and the order of the list
    change nothing. *)
Theorem labels_depend_on_listed_frames (gt gt' : list Z) (n : nat) :
  (forall j, j < n -> (In (Z.of_nat j) gt <-> In (Z.of_nat j) gt')) ->
  frame_labels gt n = frame_labels gt' n /\
  (forall j, frame_labels gt n !! j = Some 1%Z <->
             j < n /\ In (Z.of_nat j) gt).
Proof.
  assert (Hex : forall (g : list Z) (j : nat),
            existsb (Z.eqb (Z.of_nat j)) g = true <-> In (Z.of_nat j) g).
  { intros g j. rewrite existsb_exists. split.
    - intros (x & Hx & He). apply Z.eqb_eq in He. congruence.
    - intros Hin. exists (Z.of_nat j). split; [exact Hin | apply Z.eqb_refl]. }
  intros Hsame. split.
  - unfold frame_labels. apply map_ext_in. intros j Hj.
    apply in_seq in Hj.
    destruct (existsb (Z.eqb (Z.of_nat j)) gt) eqn:E1,
             (existsb (Z.eqb (Z.of_nat j)) gt') eqn:E2; try reflexivity.
    + apply Hex, Hsame, Hex in E1; [congruence | lia].
    + apply Hex, Hsame, Hex in E2; [congruence | lia].
  - intros j. unfold frame_labels.
    change (map ?f ?l) with (f <$> l). rewrite list_lookup_fmap.
    destruct (Nat.lt_ge_cases j n) as [Hlt|Hge].
    + rewrite lookup_seq_lt by exact Hlt. simpl.
      destruct (existsb (Z.eqb (Z.of_nat j)) gt) eqn:E.
      * apply Hex in E. split; auto.
      * split; [discriminate|]. intros [_ Hin]. apply Hex in Hin. congruence.
    + rewrite lookup_seq_ge by exact Hge. simpl.
      split; [discriminate | lia].
Qed.




(** A sequence of 3 frames whose ground truth lists frame 1 twice, and
    two indices that are no frames of it. *)
Lemma labels_depend_on_listed_frames_witness :
  frame_labels [1; 7; 1; -3]%Z 3 = frame_labels [1]%Z 3 /\
  (forall j, frame_labels [1; 7; 1; -3]%Z 3 !! j = Some 1%Z <->
             j < 3 /\ In (Z.of_nat j) [1; 7; 1; -3]%Z).
Proof.
  apply (labels_depend_on_listed_frames [1; 7; 1; -3]%Z [1]%Z 3).
  intros j Hj. simpl. split.
  - intros [H|[H|[H|[H|[]]]]]; auto; lia.
  - intros [H|[]]; auto.
Defined.


End LabelsFacts.

(** ** The name of the data set *)

Module PathsFacts.

Import Stdlib.Strings.Ascii Stdlib.Strings.String.
Import Paths.

Lemma append_assoc' (a b c : string) :
  ((a ++ b) ++ c = a ++ (b ++ c))%string.
Proof. induction a as [|x a IH]; simpl; [reflexivity | rewrite IH; reflexivity]. Qed.

Lemma split_slash_nonempty (s : string) : split_slash s <> [].
Proof.
  induction s as [|c s IH]; simpl; [discriminate|].
  destruct (Ascii.eqb c "/"); [discriminate|].
  destruct (split_slash s); discriminate.
Qed.

(** Splitting at a ['/'] that is written out. *)
Lemma split_slash_app (a b : string) :
  split_slash (a ++ String "/" b) = (split_slash a ++ split_slash b)%list.
Proof.
  induction a as [|c a IH]; simpl; [reflexivity|].
  destruct (Ascii.eqb c "/"); simpl; [rewrite IH; reflexivity|].
  rewrite IH. pose proof (split_slash_nonempty a) as Hne.
  destruct (split_slash a); [contradiction | reflexivity].
Qed.

Lemma split_slash_free (s : string) :
  slash_free s = true -> split_slash s = [s].
Proof.
  induction s as [|c s IH]; simpl; [reflexivity|].
  destruct (Ascii.eqb c "/"); simpl; [discriminate|].
  intros H. rewrite (IH H). reflexivity.
Qed.

Lemma ends_with_slash_free (s : string) :
  slash_free s = true -> ends_with_slash s = false.
Proof.
  induction s as [|c s IH]; simpl; [reflexivity|].
  destruct (Ascii.eqb c "/") eqn:Hc; simpl; [discriminate|].
  intros H. destruct s; [reflexivity | exact (IH H)].
Qed.

Lemma ends_with_slash_app (a b : string) :
  b <> EmptyString -> ends_with_slash (a ++ b) = ends_with_slash b.
Proof.
  intros Hb. induction a as [|c a IH]; simpl; [reflexivity|].
  destruct (a ++ b)%string eqn:E; [|exact IH].
  destruct a; simpl in E; [contradiction | discriminate].
Qed.

Lemma ends_with_slash_inv (s : string) :
  ends_with_slash s = true -> exists p, s = (p ++ "/")%string.
Proof.
  induction s as [|c s IH]; simpl; [discriminate|].
  destruct s as [|d s].
  - intros H. apply Ascii.eqb_eq in H. subst c. exists EmptyString. reflexivity.
  - intros H. destruct (IH H) as [p Hp]. exists (String c p).
    simpl. rewrite <- Hp. reflexivity.
Qed.

Lemma eqb_app_empty (a b : string) :
  b <> EmptyString -> String.eqb (a ++ b) "" = false.
Proof.
  intros Hb. destruct a; simpl; [|reflexivity].
  destruct b; [contradiction | reflexivity].
Qed.

(** X15: the name looked up in the ground-truth file name is the last component
    of [data_dir], in lower case, whether [data_dir] ends with one ['/'] or
    with none, and whatever comes before that component; an empty
    [data_dir] gives the [IndexError] of [split('/')[-2]]. *)
Theorem dataset_name_is_last_component (parent name : string) :
  name <> EmptyString -> slash_free name = true ->
  parent = EmptyString \/ ends_with_slash parent = true ->
  dataset_name (parent ++ name) = Ok (lower name) /\
  dataset_name (parent ++ name ++ "/") = Ok (lower name) /\
  dataset_name "" = Raise IndexError.
Proof.
  intros Hne Hfree Hparent.
  assert (Hsplit : exists pre,
            split_slash (parent ++ name ++ "/Test")
            = (pre ++ [name; "Test"%string])%list).
  { change (name ++ "/Test")%string with (name ++ String "/" "Test")%string.
    rewrite <- append_assoc', split_slash_app.
    destruct Hparent as [->|Hp].
    - exists []. simpl. rewrite (split_slash_free name Hfree). reflexivity.
    - destruct (ends_with_slash_inv parent Hp) as [p ->].
      change (p ++ "/")%string with (p ++ String "/" "")%string.
      rewrite append_assoc'. simpl. rewrite split_slash_app.
      exists (split_slash p). rewrite (split_slash_free name Hfree).
      rewrite <- app_assoc. reflexivity. }
  destruct Hsplit as [pre Hsplit].
  assert (Hname : penultimate (pre ++ [name; "Test"%string])%list = Ok name).
  { unfold penultimate. rewrite rev_app_distr. reflexivity. }
  assert (Hj1 : path_join (parent ++ name) "Test"
                = (parent ++ name ++ "/Test")%string).
  { unfold path_join. simpl prefix. cbv iota.
    rewrite (eqb_app_empty parent name Hne).
    rewrite (ends_with_slash_app parent name Hne).
    rewrite (ends_with_slash_free name Hfree). simpl.
    rewrite append_assoc'. reflexivity. }
  assert (Hj2 : path_join (parent ++ name ++ "/") "Test"
                = (parent ++ name ++ "/Test")%string).
  { unfold path_join. simpl prefix. cbv iota.
    assert (Hs : (name ++ "/")%string <> EmptyString)
      by (destruct name; discriminate).
    rewrite (eqb_app_empty parent _ Hs).
    rewrite (ends_with_slash_app parent _ Hs).
    assert (He : ends_with_slash (name ++ "/") = true).
    { rewrite ends_with_slash_app by discriminate. reflexivity. }
    rewrite He. simpl. rewrite !append_assoc'. reflexivity. }
  unfold dataset_name. rewrite Hj1, Hj2, Hsplit, Hname. simpl.
  repeat split; reflexivity.
Qed.

Lemma dataset_name_is_last_component_witness :
  dataset_name "data/UCSDped1" = Ok "ucsdped1"%string /\
  dataset_name "data/UCSDped1/" = Ok "ucsdped1"%string /\
  dataset_name "" = Raise IndexError.
Proof.
  apply (dataset_name_is_last_component "data/" "UCSDped1").
  - discriminate.
  - reflexivity.
  - right. reflexivity.
Defined.

End PathsFacts.
